(** * Receipt pipeline of marcinparda/actual: storage lookup, extraction
      normalisation and commit, as a shallow embedding.

    Sources embedded here:
    - the sync-server receipt router (POST /process, GET and DELETE /:fileId),
    - sync-server [services/receipt-processor.ts] ([processReceipt],
      [getMimeType]),
    - desktop-client [ReceiptReview.tsx] ([handleSave], [updateExpense]).

    JavaScript strings are modelled as [string] (bytes), numbers as exact
    rationals, objects as finite maps from property names to values. *)

From Stdlib Require Import ZArith QArith List Ascii String Bool Lia.
From stdpp Require Import base option list strings gmap pretty.

Set Warnings "-register-all".

Local Open Scope string_scope.
Local Open Scope list_scope.

#[local] Arguments String.append !s1 s2 : simpl nomatch.

(** ** JavaScript string primitives *)

Module JsString.

(** [s.startsWith(p)] *)
Fixpoint startsWith (s p : string) {struct p} : bool :=
  match p, s with
  | EmptyString, _ => true
  | String _ _, EmptyString => false
  | String a p', String b s' => if Ascii.eqb a b then startsWith s' p' else false
  end.

(** [s.includes(p)]: [p] occurs somewhere in [s]. *)
Fixpoint includes (s p : string) : bool :=
  startsWith s p ||
  match s with
  | EmptyString => false
  | String _ s' => includes s' p
  end.

(** [s.slice(n)] and [s.slice(0, n)] for [n] within the string. *)
Fixpoint drop (n : nat) (s : string) : string :=
  match n, s with
  | O, _ => s
  | S _, EmptyString => EmptyString
  | S n', String _ s' => drop n' s'
  end.

Fixpoint take (n : nat) (s : string) : string :=
  match n, s with
  | O, _ => EmptyString
  | S _, EmptyString => EmptyString
  | S n', String c s' => String c (take n' s')
  end.

Definition endsWith (s p : string) : bool :=
  (String.length p <=? String.length s)%nat
  && String.eqb (drop (String.length s - String.length p) s) p.

(** ASCII instance of [toLowerCase]; code points outside ASCII are left
    as they are. *)
Definition lower_ascii (c : ascii) : ascii :=
  let n := nat_of_ascii c in
  if ((65 <=? n) && (n <=? 90))%nat then ascii_of_nat (n + 32) else c.

Fixpoint ascii_toLowerCase (s : string) : string :=
  match s with
  | EmptyString => EmptyString
  | String c s' => String (lower_ascii c) (ascii_toLowerCase s')
  end.

End JsString.

(** ** Node's [path] module (POSIX flavour), as far as the handlers use it *)

Module NodePath.
Import JsString.

Definition is_slash (c : ascii) : bool := Ascii.eqb c "/".
Definition is_dot (c : ascii) : bool := Ascii.eqb c ".".

Fixpoint all_slashes (s : string) : bool :=
  match s with
  | EmptyString => true
  | String c s' => is_slash c && all_slashes s'
  end.

(** Is there a further non-empty component after the first separator? *)
Fixpoint has_later_component (s : string) : bool :=
  match s with
  | EmptyString => false
  | String c s' =>
      if is_slash c then negb (all_slashes s') else has_later_component s'
  end.

Fixpoint first_component (s : string) : string :=
  match s with
  | EmptyString => EmptyString
  | String c s' => if is_slash c then EmptyString else String c (first_component s')
  end.

(** The right-most non-empty component of a path; trailing separators are
    ignored, as in the backward scans of [extname] and [basename]. *)
Fixpoint last_component (p : string) : string :=
  match p with
  | EmptyString => EmptyString
  | String c p' =>
      if is_slash c then last_component p'
      else if has_later_component p' then last_component p'
      else String c (first_component p')
  end.

(** [split_last_dot s = Some (pre, ext)]: [s = pre ++ ext] and [ext] starts
    at the last dot of [s]. *)
Fixpoint split_last_dot (s : string) : option (string * string) :=
  match s with
  | EmptyString => None
  | String c s' =>
      match split_last_dot s' with
      | Some (pre, ext) => Some (String c pre, ext)
      | None => if is_dot c then Some (EmptyString, s) else None
      end
  end.

(** [path.extname(p)]: from the last dot of the last component to its end;
    empty when there is no dot, when the only dot is the first character of
    the component, or when the component is [..]. *)
Definition extname (p : string) : string :=
  let comp := last_component p in
  match split_last_dot comp with
  | Some (pre, ext) =>
      if String.eqb pre EmptyString || String.eqb comp ".." then EmptyString
      else ext
  | None => EmptyString
  end.

(** [path.basename(p, suffix)]: the last component, with [suffix] removed
    when the component ends with it and is not equal to it. *)
Definition basename (p suffix : string) : string :=
  let comp := last_component p in
  if ((0 <? String.length suffix) && (String.length suffix <=? String.length p))%nat
  then
    if String.eqb suffix p then EmptyString
    else if endsWith comp suffix && negb (String.eqb comp suffix)
         then take (String.length comp - String.length suffix) comp
         else comp
  else comp.

(** [path.join(dir, name)] for a plain directory entry [name]. *)
Definition join (dir name : string) : string := dir +:+ "/" +:+ name.

(** Directory entries never contain a separator. *)
Fixpoint no_slash (s : string) : bool :=
  match s with
  | EmptyString => true
  | String c s' => negb (is_slash c) && no_slash s'
  end.

(** What [extname] can return: nothing, or a dot followed by the rest. *)
Definition is_extension (e : string) : Prop :=
  e = EmptyString \/ startsWith e "." = true.

End NodePath.

(** ** JavaScript values *)

Module Js.

(** The values [JSON.parse] can produce, plus [undefined] (the result of
    reading a property that is not there). Objects are finite maps from
    property names to values. *)
Inductive JsValue : Type :=
  | JUndefined
  | JNull
  | JBool (b : bool)
  | JNum (q : Q)
  | JStr (s : string)
  | JArr (items : list JsValue)
  | JObj (props : gmap string JsValue).

(** ToBoolean: [undefined], [null], [false], [0] and the empty string are
    falsy; arrays and objects are always truthy. *)
Definition truthy (v : JsValue) : bool :=
  match v with
  | JUndefined | JNull => false
  | JBool b => b
  | JNum q => negb (Qeq_bool q 0)
  | JStr s => negb (String.eqb s EmptyString)
  | JArr _ | JObj _ => true
  end.

(** [null] or [undefined]. *)
Definition nullish (v : JsValue) : bool :=
  match v with
  | JUndefined | JNull => true
  | _ => false
  end.

(** [a || b] *)
Definition js_or (a b : JsValue) : JsValue := if truthy a then a else b.

(** [v.k] for the data properties the receipt code reads. Reading from
    [null] or [undefined] throws a TypeError ([None]); primitives and
    arrays have none of these properties. *)
Definition get_prop (v : JsValue) (k : string) : option JsValue :=
  match v with
  | JUndefined | JNull => None
  | JObj props => Some (default JUndefined (props !! k))
  | JBool _ | JNum _ | JStr _ | JArr _ => Some JUndefined
  end.

(** [v === s] for a string [s]. *)
Definition strict_eq_string (v : JsValue) (s : string) : bool :=
  match v with
  | JStr t => String.eqb t s
  | _ => false
  end.

End Js.

Infix "|||" := Js.js_or (at level 50, left associativity).

(** ** A model of [JSON.parse] on byte strings *)

Module Json.
Import Js.

Definition dquote : ascii := "034"%char.
Definition backslash : ascii := "092"%char.

Definition is_ws (c : ascii) : bool :=
  let n := nat_of_ascii c in
  ((n =? 32) || (n =? 9) || (n =? 10) || (n =? 13))%nat.

Fixpoint skip_ws (s : string) : string :=
  match s with
  | String c s' => if is_ws c then skip_ws s' else s
  | EmptyString => s
  end.

Definition digit_of (c : ascii) : option Z :=
  let n := nat_of_ascii c in
  if ((48 <=? n) && (n <=? 57))%nat then Some (Z.of_nat (n - 48)) else None.

Definition hex_of (c : ascii) : option nat :=
  let n := nat_of_ascii c in
  if ((48 <=? n) && (n <=? 57))%nat then Some (n - 48)%nat
  else if ((97 <=? n) && (n <=? 102))%nat then Some (n - 87)%nat
  else if ((65 <=? n) && (n <=? 70))%nat then Some (n - 55)%nat
  else None.

(** Reads a run of digits: accumulated value, number of digits, rest. *)
Fixpoint digits (s : string) (acc : Z) (count : nat) : Z * nat * string :=
  match s with
  | String c s' =>
      match digit_of c with
      | Some d => digits s' (10 * acc + d)%Z (S count)
      | None => (acc, count, s)
      end
  | EmptyString => (acc, count, s)
  end.

Definition scale (mant : Z) (exp10 : Z) : Q :=
  if (0 <=? exp10)%Z then inject_Z (mant * 10 ^ exp10)
  else Qmake mant (Z.to_pos (10 ^ (- exp10))).

(** number = -? int frac? exp?  with  int = 0 | [1-9][0-9]* *)
Definition parse_number (s : string) : option (Q * string) :=
  let '(neg, s1) :=
    match s with
    | String "-" r => (true, r)
    | _ => (false, s)
    end in
  let '(ip, ni, s2) := digits s1 0%Z 0 in
  let leading_zero :=
    match s1 with
    | String "0" _ => true
    | _ => false
    end in
  if (ni =? 0)%nat || (leading_zero && (1 <? ni)%nat) then None
  else
    let frac :=
      match s2 with
      | String "." r =>
          let '(m, nf, s3) := digits r ip 0 in
          if (nf =? 0)%nat then None else Some (m, nf, s3)
      | _ => Some (ip, 0%nat, s2)
      end in
    match frac with
    | None => None
    | Some (mant, nf, s3) =>
        let expo :=
          match s3 with
          | String c r =>
              if Ascii.eqb c "e" || Ascii.eqb c "E" then
                let '(eneg, r1) :=
                  match r with
                  | String "-" r' => (true, r')
                  | String "+" r' => (false, r')
                  | _ => (false, r)
                  end in
                let '(e, ne, s4) := digits r1 0%Z 0 in
                if (ne =? 0)%nat then None
                else Some ((if eneg then - e else e)%Z, s4)
              else Some (0%Z, s3)
          | EmptyString => Some (0%Z, s3)
          end in
        match expo with
        | None => None
        | Some (e, s4) =>
            let m := if neg then (- mant)%Z else mant in
            Some (scale m (e - Z.of_nat nf), s4)
        end
    end.

(** UTF-8 bytes of a code unit read from a [\uXXXX] escape. *)
Definition utf8 (n : nat) : string :=
  if (n <? 128)%nat then String (ascii_of_nat n) EmptyString
  else if (n <? 2048)%nat then
    String (ascii_of_nat (192 + n / 64))
      (String (ascii_of_nat (128 + n mod 64)) EmptyString)
  else
    String (ascii_of_nat (224 + n / 4096))
      (String (ascii_of_nat (128 + (n / 64) mod 64))
         (String (ascii_of_nat (128 + n mod 64)) EmptyString)).

(** The characters of a string literal after its opening quote. *)
Fixpoint parse_string (fuel : nat) (s : string) : option (string * string) :=
  match fuel, s with
  | S fuel', String c r =>
      if Ascii.eqb c dquote then Some (EmptyString, r)
      else if Ascii.eqb c backslash then
        match r with
        | String e r' =>
            let simple (x : nat) :=
              match parse_string fuel' r' with
              | Some (t, rest) => Some (String (ascii_of_nat x) t, rest)
              | None => None
              end in
            if Ascii.eqb e dquote then simple 34%nat
            else if Ascii.eqb e backslash then simple 92%nat
            else if Ascii.eqb e "/" then simple 47%nat
            else if Ascii.eqb e "b" then simple 8%nat
            else if Ascii.eqb e "f" then simple 12%nat
            else if Ascii.eqb e "n" then simple 10%nat
            else if Ascii.eqb e "r" then simple 13%nat
            else if Ascii.eqb e "t" then simple 9%nat
            else if Ascii.eqb e "u" then
              match r' with
              | String h1 (String h2 (String h3 (String h4 r''))) =>
                  match hex_of h1, hex_of h2, hex_of h3, hex_of h4 with
                  | Some a, Some b, Some c', Some d =>
                      match parse_string fuel' r'' with
                      | Some (t, rest) =>
                          Some (utf8 (((a * 16 + b) * 16 + c') * 16 + d) +:+ t, rest)
                      | None => None
                      end
                  | _, _, _, _ => None
                  end
              | _ => None
              end
            else None
        | EmptyString => None
        end
      else if (nat_of_ascii c <? 32)%nat then None
      else
        match parse_string fuel' r with
        | Some (t, rest) => Some (String c t, rest)
        | None => None
        end
  | _, _ => None
  end.

Definition expect (c : ascii) (s : string) : option string :=
  match s with
  | String d r => if Ascii.eqb c d then Some r else None
  | EmptyString => None
  end.

Definition startsWith_lit (lit s : string) : bool := JsString.startsWith s lit.

Fixpoint parse_value (fuel : nat) (s : string) : option (JsValue * string) :=
  match fuel with
  | O => None
  | S fuel' =>
      match skip_ws s with
      | String c r =>
          if Ascii.eqb c "{" then
            match skip_ws r with
            | String "}" r' => Some (JObj ∅, r')
            | r' => parse_members fuel' r' ∅
            end
          else if Ascii.eqb c "[" then
            match skip_ws r with
            | String "]" r' => Some (JArr [], r')
            | r' => parse_elements fuel' r' []
            end
          else if Ascii.eqb c dquote then
            match parse_string (String.length r) r with
            | Some (t, rest) => Some (JStr t, rest)
            | None => None
            end
          else if startsWith_lit "true" (String c r) then Some (JBool true, JsString.drop 4 (String c r))
          else if startsWith_lit "false" (String c r) then Some (JBool false, JsString.drop 5 (String c r))
          else if startsWith_lit "null" (String c r) then Some (JNull, JsString.drop 4 (String c r))
          else
            match parse_number (String c r) with
            | Some (q, rest) => Some (JNum q, rest)
            | None => None
            end
      | EmptyString => None
      end
  end
with parse_members (fuel : nat) (s : string) (acc : gmap string JsValue)
  : option (JsValue * string) :=
  match fuel with
  | O => None
  | S fuel' =>
      match expect dquote (skip_ws s) with
      | None => None
      | Some r =>
          match parse_string (String.length r) r with
          | None => None
          | Some (k, r1) =>
              match expect ":" (skip_ws r1) with
              | None => None
              | Some r2 =>
                  match parse_value fuel' r2 with
                  | None => None
                  | Some (v, r3) =>
                      match skip_ws r3 with
                      | String d r4 =>
                          if Ascii.eqb d "," then parse_members fuel' r4 (<[k := v]> acc)
                          else if Ascii.eqb d "}" then Some (JObj (<[k := v]> acc), r4)
                          else None
                      | EmptyString => None
                      end
                  end
              end
          end
      end
  end
with parse_elements (fuel : nat) (s : string) (acc : list JsValue)
  : option (JsValue * string) :=
  match fuel with
  | O => None
  | S fuel' =>
      match parse_value fuel' s with
      | None => None
      | Some (v, r) =>
          match skip_ws r with
          | String d r1 =>
              if Ascii.eqb d "," then parse_elements fuel' r1 (acc ++ [v])
              else if Ascii.eqb d "]" then Some (JArr (acc ++ [v]), r1)
              else None
          | EmptyString => None
          end
      end
  end.

(** [JSON.parse(s)]: one value, optionally surrounded by white space;
    [None] stands for the SyntaxError. *)
Definition JSON_parse (s : string) : option JsValue :=
  match parse_value (2 * String.length s + 2) s with
  | Some (v, rest) =>
      match skip_ws rest with
      | EmptyString => Some v
      | String _ _ => None
      end
  | None => None
  end.

End Json.

(** ** Extraction engine: [services/receipt-processor.ts] *)

Module ReceiptProcessor.
Import Js.

(** [interface ReceiptExpense]; at run time every field holds whatever the
    model's JSON put there, so fields are [JsValue]s. *)
Record ReceiptExpense := {
  amount : JsValue;
  merchant : JsValue;
  date : JsValue;
  categoryId : JsValue;
  categoryName : JsValue;
  note : JsValue;
  confidence : JsValue
}.

Record ReceiptProcessResult := {
  expenses : list ReceiptExpense;
  totalAmount : JsValue;
  receiptDate : JsValue;
  result_merchant : JsValue;
  result_confidence : JsValue;
  rawResponse : string
}.

Inductive ParseFailure :=
  | NoJsonFound      (* 'No JSON found in response' *)
  | InvalidJson.     (* SyntaxError raised by JSON.parse *)

(** The errors [processReceipt] throws. All but the first two are rethrown
    with the prefix 'Receipt processing failed: '. *)
Inductive ProcessError :=
  | ConfigError                      (* 'OpenAI API key not configured. ...' *)
  | NotFoundError                    (* 'Receipt image not found: ...' *)
  | RemoteCallError                  (* the chat-completions call rejected *)
  | NoResponseError                  (* 'No response from OpenAI API' *)
  | ParseError (why : ParseFailure)  (* 'Failed to parse receipt data: ...' *)
  | NormalizeTypeError.              (* TypeError while reading parsed data *)

(** Outcome of the remote chat-completions call:
    [response.choices[0]?.message?.content], or a rejection. *)
Inductive ModelCall :=
  | CallRejected
  | CallReturned (content : option string).

(** [mimeTypes] of [getMimeType]. Keys reaching the table are file
    extensions, so only its own entries can be selected. *)
Definition mimeTypes : gmap string string :=
  list_to_map
    [ (".jpg", "image/jpeg"); (".jpeg", "image/jpeg"); (".png", "image/png");
      (".gif", "image/gif"); (".webp", "image/webp"); (".heic", "image/heic");
      (".heif", "image/heif") ].

(** The extensions both tables know. *)
Definition known_extensions : list string :=
  [".jpg"; ".jpeg"; ".png"; ".gif"; ".webp"; ".heic"; ".heif"].

(** [table[ext] || fallback] on a string table. *)
Definition lookup_or (table : gmap string string) (ext fallback : string) : string :=
  match table !! ext with
  | Some m => if String.eqb m EmptyString then fallback else m
  | None => fallback
  end.

Definition getMimeType (ext : string) : string :=
  lookup_or mimeTypes ext "image/jpeg".

(** [content.match(/\{[\s\S]*\}/)]: leftmost opening brace, then greedily
    up to the last closing brace of the text. *)
Fixpoint from_first_open (s : string) : option string :=
  match s with
  | EmptyString => None
  | String c s' => if Ascii.eqb c "{" then Some s else from_first_open s'
  end.

Fixpoint upto_last_close (s : string) : option string :=
  match s with
  | EmptyString => None
  | String c s' =>
      match upto_last_close s' with
      | Some r => Some (String c r)
      | None => if Ascii.eqb c "}" then Some (String c EmptyString) else None
      end
  end.

Definition jsonMatch (content : string) : option string :=
  match from_first_open content with
  | Some t => upto_last_close t
  | None => None
  end.

Section Process.
(** [JSON.parse], and the value of
    [new Date().toISOString().split('T')[0]] at the time of the call. *)
Variable JSON_parse : string -> option JsValue.
Variable today : string.

(** Lines 158-172: the inner [try] around match-and-parse. *)
Definition parseContent (content : string) : ProcessError + JsValue :=
  match jsonMatch content with
  | None => inl (ParseError NoJsonFound)
  | Some m =>
      match JSON_parse m with
      | None => inl (ParseError InvalidJson)
      | Some parsedData => inr parsedData
      end
  end.

(** Lines 185-196: the callback of [result.expenses.map]. [None] is the
    TypeError of reading a property of [null]. *)
Definition normalizeExpense (pd_merchant pd_date expense : JsValue)
  : option ReceiptExpense :=
  e_amount ← get_prop expense "amount";
  e_merchant ← get_prop expense "merchant";
  e_date ← get_prop expense "date";
  e_categoryId ← get_prop expense "categoryId";
  e_categoryName ← get_prop expense "categoryName";
  e_note ← get_prop expense "note";
  e_confidence ← get_prop expense "confidence";
  Some {| amount := e_amount ||| JNum 0;
          merchant := pd_merchant ||| e_merchant ||| JStr EmptyString;
          date := e_date ||| pd_date ||| JStr today;
          categoryId := e_categoryId ||| JNull;
          categoryName := e_categoryName ||| JStr "Uncategorized";
          note := e_note ||| JStr EmptyString;
          confidence := e_confidence ||| JNum (1 # 2) |}.

(** [result.expenses.map(f)]: only an array has [map]. *)
Definition map_expenses (f : JsValue -> option ReceiptExpense) (v : JsValue)
  : option (list ReceiptExpense) :=
  match v with
  | JArr items => mapM f items
  | _ => None
  end.

(** Lines 174-196. *)
Definition normalize (content : string) (parsedData : JsValue)
  : option ReceiptProcessResult :=
  pd_expenses ← get_prop parsedData "expenses";
  pd_totalAmount ← get_prop parsedData "totalAmount";
  pd_date ← get_prop parsedData "date";
  pd_merchant ← get_prop parsedData "merchant";
  pd_confidence ← get_prop parsedData "confidence";
  es ← map_expenses (normalizeExpense pd_merchant pd_date)
          (pd_expenses ||| JArr []);
  Some {| expenses := es;
          totalAmount := pd_totalAmount ||| JNum 0;
          receiptDate := pd_date ||| JNull;
          result_merchant := pd_merchant ||| JNull;
          result_confidence := pd_confidence ||| JNum (1 # 2);
          rawResponse := content |}.

(** What happens to the model's text once it has arrived. *)
Definition processContent (content : string) : ProcessError + ReceiptProcessResult :=
  match parseContent content with
  | inl err => inl err
  | inr parsedData =>
      match normalize content parsedData with
      | Some result => inr result
      | None => inl NormalizeTypeError
      end
  end.

Definition processReceipt (apiKey : option string) (imageExists : bool)
    (call : ModelCall) : ProcessError + ReceiptProcessResult :=
  match apiKey with
  | None | Some EmptyString => inl ConfigError
  | Some _ =>
      if negb imageExists then inl NotFoundError
      else
        match call with
        | CallRejected => inl RemoteCallError
        | CallReturned None | CallReturned (Some EmptyString) => inl NoResponseError
        | CallReturned (Some content) => processContent content
        end
  end.
End Process.

(** *** The shapes the documentation of [ReceiptExpense] asks for *)

Definition is_digit (c : ascii) : bool :=
  let n := nat_of_ascii c in ((48 <=? n) && (n <=? 57))%nat.

Definition is_dash (c : ascii) : bool := Ascii.eqb c "-".

(** YYYY-MM-DD *)
Definition iso_date_shape (s : string) : bool :=
  match s with
  | String y1 (String y2 (String y3 (String y4 (String h1
      (String m1 (String m2 (String h2 (String d1 (String d2 EmptyString))))))))) =>
      is_digit y1 && is_digit y2 && is_digit y3 && is_digit y4 && is_dash h1
      && is_digit m1 && is_digit m2 && is_dash h2 && is_digit d1 && is_digit d2
  | _ => false
  end.

Definition is_iso_date (v : JsValue) : bool :=
  match v with
  | JStr s => iso_date_shape s
  | _ => false
  end.

Definition is_nonneg_integer (v : JsValue) : bool :=
  match v with
  | JNum q => Qle_bool 0 q && Pos.eqb (Qden (Qred q)) 1
  | _ => false
  end.

Definition in_unit_interval (v : JsValue) : bool :=
  match v with
  | JNum q => Qle_bool 0 q && Qle_bool q 1
  | _ => false
  end.

Definition well_shaped (e : ReceiptExpense) : bool :=
  is_nonneg_integer (amount e) && is_iso_date (date e) && in_unit_interval (confidence e).

(** The first balanced [{...}] of a text, the extraction the specification
    describes: from the first opening brace to the brace that closes it. *)
Fixpoint balanced_prefix (depth : nat) (s : string) : option string :=
  match s with
  | EmptyString => None
  | String c s' =>
      if Ascii.eqb c "{" then
        option_map (String c) (balanced_prefix (S depth) s')
      else if Ascii.eqb c "}" then
        match depth with
        | O => None
        | S O => Some (String c EmptyString)
        | S d => option_map (String c) (balanced_prefix d s')
        end
      else option_map (String c) (balanced_prefix depth s')
  end.

Definition first_balanced_object (content : string) : option string :=
  match from_first_open content with
  | Some t => balanced_prefix 0 t
  | None => None
  end.

End ReceiptProcessor.

(** ** Receipt storage handlers: the sync-server router *)

Module ReceiptHandlers.
Import Js JsString NodePath ReceiptProcessor.

(** The server as the handlers see it: the answer of [needsBootstrap()]
    (account-db.js, outside the sources at hand: the readiness check that
    gates every operation) and the entries of the storage directory in the
    order [fs.readdirSync] lists them. *)
Record ServerState := {
  needsBootstrap : bool;
  files : list string
}.

Record Category := {
  cat_id : string;
  cat_name : string;
  is_income : bool
}.

Inductive Response :=
  | ErrorResponse (status : nat) (reason : string)
  | FileResponse (filePath contentType cacheControl : string)
  | DeleteResponse
  | ProcessResponse (result : ReceiptProcessResult)
      (receiptUrl fileId filename extension : string).

(** The predicate of [files.find] in POST /process (line 687). *)
Definition matches_process (fileId f : string) : bool :=
  startsWith f (fileId +:+ ".") || includes f ("_" +:+ fileId +:+ ".").

(** The predicate of [files.find] in GET and DELETE /:fileId. *)
Definition matches_lookup (fileId f : string) : bool :=
  let nameWithoutExt := basename f (extname f) in
  String.eqb nameWithoutExt fileId || includes nameWithoutExt ("_" +:+ fileId).

(** [contentTypeMap] of the GET handler. *)
Definition contentTypeMap : gmap string string :=
  list_to_map
    [ (".jpg", "image/jpeg"); (".jpeg", "image/jpeg"); (".png", "image/png");
      (".gif", "image/gif"); (".webp", "image/webp"); (".heic", "image/heic");
      (".heif", "image/heif") ].

Definition contentTypeFor (ext : string) : string :=
  lookup_or contentTypeMap ext "application/octet-stream".

(** [fs.existsSync] for an entry of the storage directory. *)
Definition existsSync (st : ServerState) (name : string) : bool :=
  existsb (String.eqb name) (files st).

(** [fs.unlinkSync]: the name is gone from the directory. *)
Definition unlinkSync (st : ServerState) (name : string) : ServerState :=
  {| needsBootstrap := needsBootstrap st;
     files := List.filter (fun f => negb (String.eqb f name)) (files st) |}.

Section Handlers.
Variable toLowerCase : string -> string.
Variable JSON_parse : string -> option JsValue.
Variable today : string.
Variable receiptStoragePath : string.
Variable apiKey : option string.

(** GET /receipt/:fileId *)
Definition handle_get (st : ServerState) (fileId : string) : Response :=
  if needsBootstrap st then ErrorResponse 500 "not-bootstrapped"
  else if String.eqb fileId EmptyString then ErrorResponse 400 "missing-file-id"
  else
    match List.find (matches_lookup fileId) (files st) with
    | None => ErrorResponse 404 "file-not-found"
    | Some receiptFile =>
        let filePath := join receiptStoragePath receiptFile in
        if negb (existsSync st receiptFile) then ErrorResponse 404 "file-not-found"
        else
          let ext := toLowerCase (extname filePath) in
          FileResponse filePath (contentTypeFor ext) "private, max-age=86400"
    end.

(** DELETE /receipt/:fileId *)
Definition handle_delete (st : ServerState) (fileId : string)
  : Response * ServerState :=
  if needsBootstrap st then (ErrorResponse 500 "not-bootstrapped", st)
  else if String.eqb fileId EmptyString then (ErrorResponse 400 "missing-file-id", st)
  else
    match List.find (matches_lookup fileId) (files st) with
    | None => (ErrorResponse 404 "file-not-found", st)
    | Some receiptFile => (DeleteResponse, unlinkSync st receiptFile)
    end.

(** POST /receipt/process; [call] is what the remote model answers to the
    request [processReceipt] sends for the image. *)
Definition handle_process (st : ServerState) (fileId : string)
    (categories : option (list Category)) (call : ModelCall) : Response :=
  if needsBootstrap st then ErrorResponse 500 "not-bootstrapped"
  else if String.eqb fileId EmptyString then ErrorResponse 400 "missing-file-id"
  else
    match categories with
    | None => ErrorResponse 400 "missing-categories"
    | Some _ =>
        match List.find (matches_process fileId) (files st) with
        | None => ErrorResponse 404 "file-not-found"
        | Some receiptFile =>
            match processReceipt JSON_parse today apiKey
                    (existsSync st receiptFile) call with
            | inl _ => ErrorResponse 500 "processing-failed"
            | inr result =>
                ProcessResponse result ("/receipt/" +:+ fileId) fileId
                  receiptFile (extname receiptFile)
            end
        end
    end.
End Handlers.

(** The identifier the upload handler hands out for a stored file:
    [path.basename(filePath, path.extname(filePath))]. *)
Definition fileId_of (f : string) : string := basename f (extname f).

(** The resolution the specification asks for: a file answers to a fileId
    exactly when its name without extension is that fileId. *)
Definition exact_match (fileId f : string) : bool :=
  String.eqb (fileId_of f) fileId.

End ReceiptHandlers.

(** ** Review screen: [ReceiptReview.tsx] *)

Module ReceiptReview.
Import Js.

(** An [EditableExpense] is a plain JS object; [updateExpense] may set any
    property to any value. *)
Abbreviation EditableExpense := (gmap string JsValue).

(** [expense.k] *)
Definition prop (expense : EditableExpense) (k : string) : JsValue :=
  default JUndefined (expense !! k).

Record PayeeEntity := {
  payee_id : string;
  payee_name : string
}.

Record Transaction := {
  t_id : string;
  t_account : JsValue;
  t_date : JsValue;
  t_amount : JsValue;
  t_payee : JsValue;
  t_category : JsValue;
  t_notes : string;
  t_cleared : bool
}.

(** What [send] has done to the budget so far: the payees created through
    'payee-create' as (returned id, name), oldest first, and the [added]
    list of every 'transactions-batch-update'. Both endpoints are taken to
    answer; a rejected [send] is not modelled. *)
Record Backend := {
  created_payees : list (string * JsValue);
  batches : list (list Transaction)
}.

Inductive SaveError :=
  | MissingAccount       (* new Error('All expenses must have an account') *)
  | MerchantTypeError.   (* expense.merchant.toLowerCase is not a function *)

Definition error_message (e : SaveError) : string :=
  match e with
  | MissingAccount => "All expenses must have an account"
  | MerchantTypeError => "expense.merchant.toLowerCase is not a function"
  end.

Inductive SaveOutcome :=
  | SaveFailed (message : string)       (* setError(err.message) *)
  | NavigateAccount (target : JsValue)  (* navigate(`/accounts/${target}`) *)
  | NavigateBack.                       (* navigate(-1) *)

(** [updateExpense], as the state transformer handed to [setExpenses]. *)
Definition updateExpense (id field : string) (value : JsValue)
    (prev : list EditableExpense) : list EditableExpense :=
  (fun expense : EditableExpense =>
     if strict_eq_string (prop expense "id") id
     then <[field := value]> expense
     else expense)
  <$> prev.

(** [canSave], the condition under which the Save button is enabled. *)
Definition canSave (expenses : list EditableExpense) : bool :=
  (0 <? length expenses)%nat
  && forallb (fun e => truthy (prop e "account")) expenses.

Section Commit.
Variable toLowerCase : string -> string.
(** The id 'payee-create' answers with when [n] payees were created
    before, and the [temp-...] id drawn for the transaction at a given
    position. *)
Variable newPayeeId : nat -> string.
Variable tempId : nat -> string.

(** Modelled from the spec: the 'payee-create' endpoint reached through
    [send] lives in loot-core, outside the sources at hand. It creates a
    new payee with the given name and answers with the generated id. *)
Definition send_payee_create (name : JsValue) (w : Backend) : JsValue * Backend :=
  let id := newPayeeId (length (created_payees w)) in
  (JStr id,
   {| created_payees := created_payees w ++ [(id, name)];
      batches := batches w |}).

(** Modelled from the spec: the 'transactions-batch-update' endpoint,
    also in loot-core. Called as
    [send('transactions-batch-update', { added, updated: [], deleted: [] })],
    it takes all drafts as one add-batch. *)
Definition send_batch_update (added : list Transaction) (w : Backend) : Backend :=
  {| created_payees := created_payees w;
     batches := batches w ++ [added] |}.

(** [payees.find(p => p.name.toLowerCase() === expense.merchant.toLowerCase())];
    the callback throws when it runs on a merchant that is not a string. *)
Definition find_payee (payees : list PayeeEntity) (merchant : JsValue)
  : SaveError + option PayeeEntity :=
  match payees, merchant with
  | [], _ => inr None
  | _ :: _, JStr m =>
      inr (List.find
             (fun p => String.eqb (toLowerCase (payee_name p)) (toLowerCase m))
             payees)
  | _ :: _, _ => inl MerchantTypeError
  end.

(** Lines 156-173: "Create or find payee". *)
Definition resolvePayee (payees : list PayeeEntity) (expense : EditableExpense)
    (w : Backend) : (SaveError + JsValue) * Backend :=
  let payeeId := prop expense "payee" in
  if negb (truthy payeeId) && truthy (prop expense "merchant") then
    match find_payee payees (prop expense "merchant") with
    | inl err => (inl err, w)
    | inr (Some existingPayee) => (inr (JStr (payee_id existingPayee)), w)
    | inr None =>
        let '(id, w') := send_payee_create (prop expense "merchant") w in
        (inr id, w')
    end
  else (inr payeeId, w).

Definition make_transaction (index : nat) (fullReceiptUrl : string)
    (expense : EditableExpense) (payeeId : JsValue) : Transaction :=
  {| t_id := tempId index;
     t_account := prop expense "account";
     t_date := prop expense "date";
     t_amount := prop expense "amount";
     t_payee := payeeId;
     t_category := prop expense "categoryId";
     t_notes := fullReceiptUrl;
     t_cleared := false |}.

(** The [for (const expense of expenses)] loop of [handleSave];
    [transactionsToAdd] is the accumulator. *)
Fixpoint save_loop (payees : list PayeeEntity) (fullReceiptUrl : string)
    (index : nat) (expenses : list EditableExpense)
    (transactionsToAdd : list Transaction) (w : Backend)
  : (SaveError + list Transaction) * Backend :=
  match expenses with
  | [] => (inr transactionsToAdd, w)
  | expense :: rest =>
      if negb (truthy (prop expense "account")) then (inl MissingAccount, w)
      else
        match resolvePayee payees expense w with
        | (inl err, w') => (inl err, w')
        | (inr payeeId, w') =>
            save_loop payees fullReceiptUrl (S index) rest
              (transactionsToAdd
                 ++ [make_transaction index fullReceiptUrl expense payeeId])
              w'
        end
  end.

Definition handleSave (payees : list PayeeEntity) (accountId : option string)
    (fullReceiptUrl : string) (expenses : list EditableExpense) (w : Backend)
  : SaveOutcome * Backend :=
  match save_loop payees fullReceiptUrl 0 expenses [] w with
  | (inl err, w') => (SaveFailed (error_message err), w')
  | (inr transactionsToAdd, w') =>
      let w'' := send_batch_update transactionsToAdd w' in
      let targetAccountId :=
        match accountId with
        | Some a => JStr a
        | None => JNull
        end
        ||| match expenses with
            | e :: _ => prop e "account"
            | [] => JUndefined
            end in
      if truthy targetAccountId then (NavigateAccount targetAccountId, w'')
      else (NavigateBack, w'')
  end.

End Commit.

End ReceiptReview.

(** ** Vocabulary of the statements proved below *)

Module Spec.
Import Js ReceiptProcessor.

(** The character [c] does not occur in [s]. *)
Fixpoint lacks (c : ascii) (s : string) : bool :=
  match s with
  | EmptyString => true
  | String d s' => negb (Ascii.eqb d c) && lacks c s'
  end.

(** [v.k], where a primitive simply has no such property. *)
Definition own (v : JsValue) (k : string) : JsValue :=
  default JUndefined (get_prop v k).

(** [out] is the own value when that is truthy, and the fallback when the
    own value is missing ([undefined] or [null]). *)
Definition kept_or_default (own_value fallback out : JsValue) : Prop :=
  (truthy own_value = true -> out = own_value)
  /\ (nullish own_value = true -> out = fallback).

(** How one returned expense relates to the parsed expense it came from. *)
Definition normalized_from (today : string) (parsedData expense : JsValue)
    (r : ReceiptExpense) : Prop :=
  kept_or_default (own expense "amount") (JNum 0) (amount r)
  /\ (truthy (own parsedData "merchant") = true ->
      merchant r = own parsedData "merchant")
  /\ (nullish (own parsedData "merchant") = true ->
      kept_or_default (own expense "merchant") (JStr EmptyString) (merchant r))
  /\ (truthy (own expense "date") = true -> date r = own expense "date")
  /\ (nullish (own expense "date") = true ->
      kept_or_default (own parsedData "date") (JStr today) (date r))
  /\ kept_or_default (own expense "categoryId") JNull (categoryId r)
  /\ kept_or_default (own expense "categoryName") (JStr "Uncategorized") (categoryName r)
  /\ kept_or_default (own expense "note") (JStr EmptyString) (note r)
  /\ kept_or_default (own expense "confidence") (JNum (1 # 2)) (confidence r).

(** The object literal built by the callback of [result.expenses.map] for
    an element that is not [null]. *)
Definition normalized (today : string) (parsedData expense : JsValue)
  : ReceiptExpense :=
  {| amount := own expense "amount" ||| JNum 0;
     merchant := own parsedData "merchant" ||| own expense "merchant"
                 ||| JStr EmptyString;
     date := own expense "date" ||| own parsedData "date" ||| JStr today;
     categoryId := own expense "categoryId" ||| JNull;
     categoryName := own expense "categoryName" ||| JStr "Uncategorized";
     note := own expense "note" ||| JStr EmptyString;
     confidence := own expense "confidence" ||| JNum (1 # 2) |}.

(** A model value that is missing or already has the wanted shape. *)
Definition missing_or (shape : JsValue -> bool) (v : JsValue) : bool :=
  nullish v || shape v.

(** An element of the model's [expenses] array whose amount, date and
    confidence are each missing or of the documented shape. *)
Definition expense_input_ok (expense : JsValue) : Prop :=
  nullish expense = false
  /\ missing_or is_nonneg_integer (own expense "amount") = true
  /\ missing_or is_iso_date (own expense "date") = true
  /\ missing_or in_unit_interval (own expense "confidence") = true.

(** [out] is what [v || fallback] gives: [v] itself when it is truthy,
    whatever its shape, and the fallback for every falsy [v] ([undefined],
    [null], [false], [0], the empty string). *)
Definition passed_or_replaced (v fallback out : JsValue) : Prop :=
  (truthy v = true -> out = v) /\ (truthy v = false -> out = fallback).

(** Where the amount, the confidence and the date of a returned expense
    come from: the expense's own value when truthy; otherwise 0, 0.5 and,
    for the date, the top-level date when truthy and else today's. *)
Definition returned_as_supplied (today : string) (parsedData expense : JsValue)
    (r : ReceiptExpense) : Prop :=
  passed_or_replaced (own expense "amount") (JNum 0) (amount r)
  /\ passed_or_replaced (own expense "confidence") (JNum (1 # 2)) (confidence r)
  /\ (truthy (own expense "date") = true -> date r = own expense "date")
  /\ (truthy (own expense "date") = false ->
      passed_or_replaced (own parsedData "date") (JStr today) (date r)).

(** A supplied value that is falsy (and so replaced) or has the shape. *)
Definition falsy_or (shape : JsValue -> bool) (v : JsValue) : bool :=
  negb (truthy v) || shape v.

(** The values a returned expense takes its amount, date and confidence
    from have the documented shapes: the truthy ones among the expense's
    own, and for the date the first truthy one of the expense's date, the
    top-level date and today's date. *)
Definition supplied_shapes_ok (today : string) (parsedData expense : JsValue)
  : Prop :=
  falsy_or is_nonneg_integer (own expense "amount") = true
  /\ falsy_or in_unit_interval (own expense "confidence") = true
  /\ falsy_or is_iso_date (own expense "date") = true
  /\ (truthy (own expense "date") = false ->
      falsy_or is_iso_date (own parsedData "date") = true
      /\ (truthy (own parsedData "date") = false -> iso_date_shape today = true)).

End Spec.

(** ** Sample data *)

Module Samples.
Import Js Json ReceiptProcessor ReceiptHandlers.

Definition quoted (s : string) : string :=
  String dquote (s +:+ String dquote EmptyString).

Definition anon_jpg : string := "1700000000000_anonymous_1b9d6bcd.jpg".
Definition anon_png : string := "1700000000001_anonymous_7c4a8d09.png".

Definition two_uploads : ServerState :=
  {| needsBootstrap := false; files := [anon_jpg; anon_png] |}.

(** A reply with prose around one JSON object; the prose mentions braces. *)
Definition reply_with_braces_in_prose : string :=
  "Result: {} (no items; see {notes})".

(** [{"merchant":"Mall","expenses":[{"merchant":"Kiosk","confidence":0}]}] *)
Definition reply_own_merchant : string :=
  "{" +:+ quoted "merchant" +:+ ":" +:+ quoted "Mall" +:+ ","
  +:+ quoted "expenses" +:+ ":[{" +:+ quoted "merchant" +:+ ":" +:+ quoted "Kiosk"
  +:+ "," +:+ quoted "confidence" +:+ ":0}]}".

(** [{"expenses":[{"amount":-5,"date":"yesterday","confidence":7}]}] *)
Definition reply_ill_shaped : string :=
  "{" +:+ quoted "expenses" +:+ ":[{" +:+ quoted "amount" +:+ ":-5,"
  +:+ quoted "date" +:+ ":" +:+ quoted "yesterday" +:+ ","
  +:+ quoted "confidence" +:+ ":7}]}".

(** [Here you go: {"date":"2024-01-01","expenses":[{"amount":1200,
    "categoryId":"c1","categoryName":"Groceries","note":"milk, eggs",
    "confidence":0.92},{"note":"bag"}]} Thanks!] *)
Definition reply_groceries : string :=
  "Here you go: {" +:+ quoted "date" +:+ ":" +:+ quoted "2024-01-01" +:+ ","
  +:+ quoted "expenses" +:+ ":[{" +:+ quoted "amount" +:+ ":1200,"
  +:+ quoted "categoryId" +:+ ":" +:+ quoted "c1" +:+ ","
  +:+ quoted "categoryName" +:+ ":" +:+ quoted "Groceries" +:+ ","
  +:+ quoted "note" +:+ ":" +:+ quoted "milk, eggs" +:+ ","
  +:+ quoted "confidence" +:+ ":0.92},{" +:+ quoted "note" +:+ ":" +:+ quoted "bag"
  +:+ "}]} Thanks!".

Definition empty_result : ReceiptProcessResult :=
  {| expenses := []; totalAmount := JNum 0; receiptDate := JNull;
     result_merchant := JNull; result_confidence := JNum (1 # 2);
     rawResponse := EmptyString |}.

(** What the engine returns for [reply_groceries] on 2024-06-01. *)
Definition groceries_result : ReceiptProcessResult :=
  Eval vm_compute in
    match processContent JSON_parse "2024-06-01" reply_groceries with
    | inr r => r
    | inl _ => empty_result
    end.

Definition groceries_parsed : JsValue :=
  Eval vm_compute in
    match parseContent JSON_parse reply_groceries with
    | inr v => v
    | inl _ => JNull
    end.

Definition groceries_items : list JsValue :=
  Eval vm_compute in
    match get_prop groceries_parsed "expenses" with
    | Some (JArr items) => items
    | _ => []
    end.

End Samples.

(** ** Vocabulary of the statements about the review screen *)

Module ReviewSpec.
Import Js ReceiptReview.

(** The expense carries an account reference: a non-empty id. *)
Definition has_account (e : EditableExpense) : Prop :=
  exists a, prop e "account" = JStr a /\ a <> EmptyString.

(** No account: the property is absent, [null], or otherwise falsy. *)
Definition lacks_account (e : EditableExpense) : Prop :=
  truthy (prop e "account") = false.

(** [merchant: string], as [interface ReceiptExpense] declares it. *)
Definition merchant_typed (e : EditableExpense) : Prop :=
  exists m, prop e "merchant" = JStr m.

Definition is_navigation (o : SaveOutcome) : Prop :=
  match o with
  | SaveFailed _ => False
  | NavigateAccount _ | NavigateBack => True
  end.

End ReviewSpec.

Module ReviewSamples.
Import Js ReceiptReview.

Definition sample_newPayeeId (n : nat) : string := "payee-new-" +:+ pretty n.
Definition sample_tempId (n : nat) : string := "temp-" +:+ pretty n.

Definition no_backend_calls : Backend :=
  {| created_payees := []; batches := [] |}.

Definition coffee_shop : PayeeEntity :=
  {| payee_id := "payee-1"; payee_name := "Coffee Shop" |}.

(** An expense as seeded from an extraction, with account acc1. *)
Definition groceries : EditableExpense :=
  <["id" := JStr "expense-0"]> (<["account" := JStr "acc1"]>
  (<["amount" := JNum 1200]> (<["merchant" := JStr "Shop"]>
  (<["date" := JStr "2024-01-01"]> (<["categoryId" := JStr "c1"]>
  (<["categoryName" := JStr "Groceries"]> (<["note" := JStr "milk, eggs"]>
  (<["confidence" := JNum (92 # 100)]> ∅)))))))).

(** A second expense of the same receipt for which no account was chosen. *)
Definition coffee_without_account : EditableExpense :=
  <["id" := JStr "expense-1"]> (<["amount" := JNum 450]>
  (<["merchant" := JStr "coffee shop"]> (<["date" := JStr "2024-01-01"]>
  (<["categoryName" := JStr "Uncategorized"]> (<["note" := JStr "latte"]>
  (<["confidence" := JNum (1 # 2)]> ∅)))))).

Definition coffee_with_account : EditableExpense :=
  <["account" := JStr "acc1"]> coffee_without_account.

End ReviewSamples.

(** ** Upload: the multer callbacks, [validateReceiptImage] and POST /upload *)

Module ReceiptUpload.
Import Js JsString NodePath ReceiptProcessor ReceiptHandlers.

(** [allowedMimes] of the [fileFilter] callback. *)
Definition allowedMimes : list string :=
  ["image/jpeg"; "image/png"; "image/gif"; "image/webp"; "image/heic"; "image/heif"].

(** [fileFilter]: [allowedMimes.includes(file.mimetype)]. *)
Definition fileFilter (mimetype : string) : bool :=
  existsb (String.eqb mimetype) allowedMimes.

(** [req.user?.user_id || 'anonymous'] *)
Definition userId_of (user_id : option string) : string :=
  match user_id with
  | None | Some EmptyString => "anonymous"
  | Some u => u
  end.

(** The [filename] callback of [multer.diskStorage]:
    [`${timestamp}_${userId}_${uuid}${ext}`], with [Date.now()] and
    [crypto.randomUUID()] as inputs. *)
Definition upload_filename (timestamp : N) (user_id : option string)
    (uuid originalname : string) : string :=
  let ext := extname originalname in
  let userId := userId_of user_id in
  pretty timestamp +:+ "_" +:+ userId +:+ "_" +:+ uuid +:+ ext.

(** [req.file] as multer leaves it; its [path] is the storage directory
    joined with [filename], and [size] is also what [fs.statSync] reports
    for the file just written. *)
Record UploadedFile := {
  filename : string;
  originalname : string;
  mimetype : string;
  size : N
}.

Inductive ValidationError :=
  | FileMissing       (* 'File does not exist' *)
  | FileTooLarge      (* `File size ...MB exceeds maximum ...MB` *)
  | InvalidFileType.  (* `Invalid file type. Supported: ...` *)

(** [{ valid: true }] or [{ valid: false, error }]. *)
Inductive Validation :=
  | Valid
  | Invalid (error : ValidationError).

(** [validExtensions] of [validateReceiptImage]. *)
Definition validExtensions : list string :=
  [".jpg"; ".jpeg"; ".png"; ".gif"; ".webp"; ".heic"; ".heif"].

(** [stats.size / (1024 * 1024)]; the division of a byte count by a power
    of two is exact in doubles, so the rational is the number compared. *)
Definition fileSizeMB (size : N) : Q :=
  (inject_Z (Z.of_N size) / inject_Z (1024 * 1024))%Q.

Inductive UploadResponse :=
  | UploadError (status : nat) (reason : string)
  | UploadOk (fileId name : string) (bytes : N) (path : string).

Section Upload.
Variable toLowerCase : string -> string.
Variable receiptStoragePath : string.
(** [config.get('receipt.maxSizeMB')] *)
Variable maxSizeMB : Q.

(** [validateReceiptImage(filePath, maxSizeMB)]; [present] and [bytes]
    are what [fs.existsSync] and [fs.statSync] answer for [filePath]. *)
Definition validateReceiptImage (present : bool) (bytes : N) (filePath : string)
  : Validation :=
  if negb present then Invalid FileMissing
  else if negb (Qle_bool (fileSizeMB bytes) maxSizeMB) then Invalid FileTooLarge
  else
    let ext := toLowerCase (extname filePath) in
    if negb (existsb (String.eqb ext) validExtensions) then Invalid InvalidFileType
    else Valid.

(** POST /receipt/upload, run after multer has stored the file. An
    [unlinkSync] of a file that is not there throws, which the handler
    turns into 500 upload-failed. *)
Definition handle_upload (st : ServerState) (file : option UploadedFile)
  : UploadResponse * ServerState :=
  if needsBootstrap st then (UploadError 500 "not-bootstrapped", st)
  else
    match file with
    | None => (UploadError 400 "no-file", st)
    | Some file =>
        let filePath := join receiptStoragePath (filename file) in
        let fileId := basename filePath (extname filePath) in
        match validateReceiptImage (existsSync st (filename file)) (size file)
                filePath with
        | Invalid FileMissing => (UploadError 500 "upload-failed", st)
        | Invalid _ =>
            (UploadError 400 "invalid-file", unlinkSync st (filename file))
        | Valid =>
            (UploadOk fileId (filename file) (size file) ("/receipt/" +:+ fileId), st)
        end
    end.
End Upload.

End ReceiptUpload.

(** ** Review screen: seeding the editable expenses *)

Module ReceiptSeed.
Import Js ReceiptProcessor ReceiptReview.

(** The expense as the client receives it: the JSON object with the seven
    properties of the object literal the server built. *)
Definition to_object (e : ReceiptExpense) : EditableExpense :=
  <["amount" := amount e]> (<["merchant" := merchant e]>
  (<["date" := date e]> (<["categoryId" := categoryId e]>
  (<["categoryName" := categoryName e]> (<["note" := note e]>
  (<["confidence" := confidence e]> ∅)))))).

(** [accountId || undefined] *)
Definition default_account (accountId : option string) : JsValue :=
  match accountId with
  | None | Some EmptyString => JUndefined
  | Some a => JStr a
  end.

(** The callback of [result.expenses.map] in [processReceiptFile]:
    [{ ...expense, id: `expense-${index}`, account: accountId || undefined,
       payee: undefined }]. *)
Definition seedExpense (accountId : option string) (index : nat)
    (expense : ReceiptExpense) : EditableExpense :=
  <["payee" := JUndefined]>
    (<["account" := default_account accountId]>
       (<["id" := JStr ("expense-" +:+ pretty index)]> (to_object expense))).

Definition seedExpenses (accountId : option string)
    (expenses : list ReceiptExpense) : list EditableExpense :=
  imap (seedExpense accountId) expenses.

(** [`${serverUrl}${result.receiptUrl}${result.extension}`], the link that
    [handleSave] writes into the notes of every transaction. *)
Definition fullReceiptUrl (serverUrl receiptUrl extension : string) : string :=
  serverUrl +:+ receiptUrl +:+ extension.

(** [getReceiptUrl(fileId, serverUrl)] of the receipt API. *)
Definition getReceiptUrl (fileId serverUrl : string) : string :=
  serverUrl +:+ "/receipt/" +:+ fileId.

End ReceiptSeed.

Module UploadSamples.
Import Js ReceiptHandlers ReceiptUpload Samples.

Definition jpg_upload : UploadedFile :=
  {| filename := anon_jpg; originalname := "IMG_0042.jpg";
     mimetype := "image/jpeg"; size := 2097152%N |}.

Definition txt_upload : UploadedFile :=
  {| filename := "1700000000002_anonymous_55aa55aa.txt"; originalname := "notes.txt";
     mimetype := "image/png"; size := 120%N |}.

Definition after_txt_upload : ServerState :=
  {| needsBootstrap := false;
     files := [anon_jpg; "1700000000002_anonymous_55aa55aa.txt"] |}.

End UploadSamples.

Module ReviewFlowSpec.
Import Js ReceiptProcessor ReceiptReview.

(** The properties of an expense that [handleSave] reads. *)
Definition read_by_save : list string :=
  ["account"; "payee"; "merchant"; "date"; "amount"; "categoryId"].

(** Two expenses that agree on everything [handleSave] reads. *)
Definition same_for_save (e e' : EditableExpense) : Prop :=
  forall k, In k read_by_save -> prop e k = prop e' k.

(** An extracted expense whose merchant is a string, as declared. *)
Definition merchant_is_string (e : ReceiptExpense) : Prop :=
  exists m, merchant e = JStr m.

(** An expense for which commit has to look its merchant [m] up: it has an
    account, no payee of its own, and names the merchant. *)
Definition needs_payee_for (m : string) (e : EditableExpense) : Prop :=
  truthy (prop e "account") = true
  /\ truthy (prop e "payee") = false
  /\ prop e "merchant" = JStr m.

End ReviewFlowSpec.

(** ** The prompt of [processReceipt] *)

Module ReceiptPrompt.
Import JsString ReceiptHandlers.

Definition nl : string := String "010"%char EmptyString.
Definition dq : string := String "034"%char EmptyString.
(** The letter l with stroke, as its two UTF-8 bytes. *)
Definition l_stroke : string := String "197"%char (String "130"%char EmptyString).

(** [`- ${cat.name} (id: ${cat.id})`] *)
Definition category_line (cat : Category) : string :=
  "- " +:+ cat_name cat +:+ " (id: " +:+ cat_id cat +:+ ")".

(** [lines.join('\n')] *)
Fixpoint join_lines (lines : list string) : string :=
  match lines with
  | [] => EmptyString
  | [line] => line
  | line :: rest => line +:+ nl +:+ join_lines rest
  end.

(** [categories.map(cat => ...).join('\n')] *)
Definition categoryList (categories : list Category) : string :=
  join_lines (List.map category_line categories).

(** The template up to [${categoryList}]. *)
Definition prompt_head : string :=
  "You are a receipt OCR system. Analyze this receipt image and extract transaction information." +:+ nl +:+
  nl +:+
  "AVAILABLE CATEGORIES:" +:+ nl.

(** The template after [${categoryList}]. *)
Definition prompt_rules : string :=
  nl +:+
  nl +:+
  "CRITICAL CATEGORIZATION RULES:" +:+ nl +:+
  "1. Carefully analyze EACH item on the receipt and categorize it correctly between AVAILABLE CATEGORIES" +:+ nl +:+
  "2. Analyze items INDIVIDUALLY based on their type, not just based on being purchased together, e.g., separate food from household items, they are often on the same receipt" +:+ nl +:+
  nl +:+
  "GROUPING INSTRUCTIONS:" +:+ nl +:+
  "1. Create separate expenses for DIFFERENT types of items (e.g., one for food, one for household items)" +:+ nl +:+
  "2. Within each category, combine similar items into ONE expense" +:+ nl +:+
  "3. For the " +:+ dq +:+ "note" +:+ dq +:+ " field, provide a list of EVERY item included in that expense" +:+ nl +:+
  nl +:+
  "AMOUNT CONVERSION:" +:+ nl +:+
  "- Convert currency amounts to cents (multiply by 100)" +:+ nl +:+
  "- For Polish z" +:+ l_stroke +:+ "oty (PLN/z" +:+ l_stroke +:+ "), multiply by 100: 141.76 PLN = 14176 cents" +:+ nl +:+
  "- For dollars ($), multiply by 100: $50.25 = 5025 cents" +:+ nl +:+
  nl +:+
  "DATE FORMAT:" +:+ nl +:+
  "- Extract date in YYYY-MM-DD format" +:+ nl +:+
  "- For example: " +:+ dq +:+ "2022-01-25" +:+ dq +:+ " from receipt" +:+ nl +:+
  nl +:+
  "OUTPUT FORMAT (valid JSON only):" +:+ nl +:+
  "{" +:+ nl +:+
  "  " +:+ dq +:+ "merchant" +:+ dq +:+ ": " +:+ dq +:+ "Store Name" +:+ dq +:+ "," +:+ nl +:+
  "  " +:+ dq +:+ "date" +:+ dq +:+ ": " +:+ dq +:+ "YYYY-MM-DD" +:+ dq +:+ "," +:+ nl +:+
  "  " +:+ dq +:+ "totalAmount" +:+ dq +:+ ": 14176," +:+ nl +:+
  "  " +:+ dq +:+ "expenses" +:+ dq +:+ ": [" +:+ nl +:+
  "    {" +:+ nl +:+
  "      " +:+ dq +:+ "amount" +:+ dq +:+ ": 12000," +:+ nl +:+
  "      " +:+ dq +:+ "categoryId" +:+ dq +:+ ": " +:+ dq +:+ "groceries-cat-id" +:+ dq +:+ "," +:+ nl +:+
  "      " +:+ dq +:+ "categoryName" +:+ dq +:+ ": " +:+ dq +:+ "Groceries" +:+ dq +:+ "," +:+ nl +:+
  "      " +:+ dq +:+ "note" +:+ dq +:+ ": " +:+ dq +:+ "weekly food shopping" +:+ dq +:+ "," +:+ nl +:+
  "      " +:+ dq +:+ "confidence" +:+ dq +:+ ": 0.95" +:+ nl +:+
  "    }," +:+ nl +:+
  "    {" +:+ nl +:+
  "      " +:+ dq +:+ "amount" +:+ dq +:+ ": 2176," +:+ nl +:+
  "      " +:+ dq +:+ "categoryId" +:+ dq +:+ ": " +:+ dq +:+ "household-cat-id" +:+ dq +:+ "," +:+ nl +:+
  "      " +:+ dq +:+ "categoryName" +:+ dq +:+ ": " +:+ dq +:+ "Household" +:+ dq +:+ "," +:+ nl +:+
  "      " +:+ dq +:+ "note" +:+ dq +:+ ": " +:+ dq +:+ "paper products and cleaning supplies" +:+ dq +:+ "," +:+ nl +:+
  "      " +:+ dq +:+ "confidence" +:+ dq +:+ ": 0.90" +:+ nl +:+
  "    }" +:+ nl +:+
  "  ]," +:+ nl +:+
  "  " +:+ dq +:+ "confidence" +:+ dq +:+ ": 0.92" +:+ nl +:+
  "}" +:+ nl +:+
  nl +:+
  "IMPORTANT: Return ONLY valid JSON, no additional text or explanation.".

Definition prompt (categories : list Category) : string :=
  prompt_head +:+ categoryList categories +:+ prompt_rules.

End ReceiptPrompt.

(** ** The client's receipt API: [uploadReceipt], [processReceipt],
       [deleteReceipt] *)

Module ReceiptApi.
Import Js Spec.

(** What [await fetch(...)] and then [response.json()] give: a rejection
    (with the message of the thrown Error, if it is one), or a response
    with its [ok] flag, its [statusText] and its body, parsed, or else the
    message of the error [response.json()] rejects with. *)
Inductive FetchOutcome :=
  | FetchThrows (message : option string)
  | FetchResponds (ok : bool) (statusText : string) (body : string + JsValue).

Section Api.
(** ToString, as [new Error(message)] applies it, and the message of the
    TypeError raised by reading a property of [null]. *)
Variable js_toString : JsValue -> string.
Variable type_error_message : string.

(** The body shared by the three functions; [failed_to] is the prefix of
    the outer [catch] and [failed] the fallback of the inner errors. *)
Definition api_call (failed_to failed : string) (outcome : FetchOutcome)
  : string + JsValue :=
  let rethrow (message : string) : string + JsValue := inl (failed_to +:+ message) in
  match outcome with
  | FetchThrows (Some message) => rethrow message
  | FetchThrows None => rethrow "Unknown error"
  | FetchResponds false statusText body =>
      let errorData :=
        match body with
        | inr v => v
        | inl _ => JNull
        end in
      let message := default JUndefined (get_prop errorData "message") in
      rethrow (if truthy message then js_toString message
               else failed +:+ ": " +:+ statusText)
  | FetchResponds true _ (inl syntax_error) => rethrow syntax_error
  | FetchResponds true _ (inr result) =>
      match get_prop result "status" with
      | None => rethrow type_error_message
      | Some status =>
          if strict_eq_string status "ok"
          then inr (default JUndefined (get_prop result "data"))
          else
            let message := default JUndefined (get_prop result "message") in
            rethrow (if truthy message then js_toString message else failed)
      end
  end.

Definition uploadReceipt (outcome : FetchOutcome) : string + JsValue :=
  api_call "Failed to upload receipt: " "Upload failed" outcome.

Definition processReceipt (outcome : FetchOutcome) : string + JsValue :=
  api_call "Failed to process receipt: " "Processing failed" outcome.

(** [deleteReceipt] resolves to nothing. *)
Definition deleteReceipt (outcome : FetchOutcome) : string + unit :=
  match api_call "Failed to delete receipt: " "Delete failed" outcome with
  | inl message => inl message
  | inr _ => inr tt
  end.

(** [isReceiptProcessingAvailable]: [response.ok] of GET /health, [false]
    when the request throws. *)
Definition isReceiptProcessingAvailable (outcome : FetchOutcome) : bool :=
  match outcome with
  | FetchThrows _ => false
  | FetchResponds ok _ _ => ok
  end.
End Api.

(** ToString on the strings; the other values do not occur in the
    examples. *)
Definition toString_of_strings (v : JsValue) : string :=
  match v with
  | JStr s => s
  | _ => EmptyString
  end.

Definition not_found_reply : FetchOutcome :=
  FetchResponds false "Not Found"
    (inr (JObj (<["message" := JStr "Receipt file not found: abc"]>
                (<["reason" := JStr "file-not-found"]>
                 (<["status" := JStr "error"]> ∅))))).

(** The envelope is a success: transport ok and [status === 'ok']. *)
Definition envelope_ok (outcome : FetchOutcome) : Prop :=
  exists statusText result,
    outcome = FetchResponds true statusText (inr result)
    /\ get_prop result "status" = Some (JStr "ok").

End ReceiptApi.
(** * Facts about the embedding *)

(** ** Strings *)

Module JsStringFacts.
Import JsString.

Lemma startsWith_spec s p :
  startsWith s p = true <-> exists r, s = p +:+ r.
Proof.
  revert s; induction p as [|a p IH]; intros s; simpl.
  - split; [intros _; now exists s | reflexivity].
  - destruct s as [|b s]; simpl.
    + split; [discriminate | intros [r Hr]; discriminate].
    + destruct (Ascii.eqb_spec a b) as [->|Hne].
      * rewrite IH. split; intros [r Hr]; exists r; simpl in *; congruence.
      * split; [discriminate | intros [r Hr]; simpl in Hr; congruence].
Qed.

Lemma startsWith_app s r : startsWith (s +:+ r) s = true.
Proof. apply startsWith_spec. now exists r. Qed.

Lemma string_app_assoc (a b c : string) : (a +:+ b) +:+ c = a +:+ (b +:+ c).
Proof. induction a; simpl; congruence. Qed.

Lemma string_app_nil_r (a : string) : a +:+ EmptyString = a.
Proof. induction a; simpl; congruence. Qed.

Lemma includes_spec s p :
  includes s p = true <-> exists l r, s = l +:+ p +:+ r.
Proof.
  induction s as [|c s IH]; simpl.
  - rewrite orb_false_r, startsWith_spec. split.
    + intros [r Hr]. now exists EmptyString, r.
    + intros (l & r & H). destruct l; simpl in H; [now exists r | discriminate].
  - rewrite orb_true_iff, startsWith_spec, IH. split.
    + intros [[r Hr] | (l & r & Hs)].
      * now exists EmptyString, r.
      * exists (String c l), r. simpl. congruence.
    + intros (l & r & H). destruct l as [|c' l]; simpl in H.
      * left. now exists r.
      * right. exists l, r. congruence.
Qed.

Lemma string_length_app (a b : string) :
  String.length (a +:+ b) = (String.length a + String.length b)%nat.
Proof. induction a; simpl; congruence. Qed.

Lemma string_drop_app (a b : string) : drop (String.length a) (a +:+ b) = b.
Proof. induction a; simpl; [now destruct b | assumption]. Qed.

Lemma string_take_app (a b : string) : take (String.length a) (a +:+ b) = a.
Proof. induction a; simpl; [now destruct b | congruence]. Qed.

Lemma string_take_drop n s : take n s +:+ drop n s = s.
Proof.
  revert s; induction n as [|n IH]; intros [|c s]; simpl; try reflexivity.
  now rewrite IH.
Qed.

Lemma endsWith_app (a b : string) : endsWith (a +:+ b) b = true.
Proof.
  unfold endsWith. rewrite string_length_app.
  replace (String.length a + String.length b - String.length b)%nat
    with (String.length a) by lia.
  rewrite string_drop_app, String.eqb_refl, andb_true_r.
  apply Nat.leb_le. lia.
Qed.

End JsStringFacts.

(** ** Paths *)

Module NodePathFacts.
Import JsString JsStringFacts NodePath.

Example extname_html : extname "index.html" = ".html".
Proof. reflexivity. Qed.
Example extname_two : extname "index.coffee.md" = ".md".
Proof. reflexivity. Qed.
Example extname_trailing_dot : extname "index." = ".".
Proof. reflexivity. Qed.
Example extname_none : extname "index" = EmptyString.
Proof. reflexivity. Qed.
Example extname_hidden : extname ".index" = EmptyString.
Proof. reflexivity. Qed.
Example extname_hidden_md : extname ".index.md" = ".md".
Proof. reflexivity. Qed.
Example extname_dotdot : extname "a/.." = EmptyString.
Proof. reflexivity. Qed.
Example extname_dir : extname "/var/receipts.d/scan.JPG/" = ".JPG".
Proof. reflexivity. Qed.
Example basename_quux : basename "/foo/bar/baz/asdf/quux.html" EmptyString = "quux.html".
Proof. reflexivity. Qed.
Example basename_quux_html : basename "/foo/bar/baz/asdf/quux.html" ".html" = "quux".
Proof. reflexivity. Qed.
Example basename_keeps_other_suffix : basename "quux.html" ".htm" = "quux.html".
Proof. reflexivity. Qed.

Lemma no_slash_components s :
  no_slash s = true ->
  has_later_component s = false /\ first_component s = s.
Proof.
  induction s as [|c s IH]; simpl; [easy|].
  intros [Hc Hs]%andb_true_iff. apply negb_true_iff in Hc. rewrite Hc.
  destruct (IH Hs) as [-> ->]. easy.
Qed.

Lemma last_component_no_slash s : no_slash s = true -> last_component s = s.
Proof.
  destruct s as [|c s]; simpl; [easy|].
  intros [Hc Hs]%andb_true_iff. apply negb_true_iff in Hc. rewrite Hc.
  destruct (no_slash_components s Hs) as [-> ->]. reflexivity.
Qed.

Lemma split_last_dot_app s pre ext :
  split_last_dot s = Some (pre, ext) ->
  s = pre +:+ ext /\ startsWith ext "." = true.
Proof.
  revert pre ext; induction s as [|c s IH]; intros pre ext; simpl; [easy|].
  destruct (split_last_dot s) as [[pre' ext']|].
  - intros [= <- <-]. destruct (IH _ _ eq_refl) as [-> He]. easy.
  - unfold is_dot. destruct (Ascii.eqb_spec c "."%char) as [->|]; [|easy].
    intros [= <- <-]. easy.
Qed.

Lemma extname_is_extension p : is_extension (extname p).
Proof.
  unfold extname, is_extension.
  destruct (split_last_dot (last_component p)) as [[pre ext]|] eqn:E; [|now left].
  destruct (_ || _); [now left|].
  right. now apply split_last_dot_app in E.
Qed.

(** A directory entry is its stem followed by its extension. *)
Lemma basename_extname f :
  no_slash f = true -> f = basename f (extname f) +:+ extname f.
Proof.
  intros Hf. unfold basename, extname.
  rewrite (last_component_no_slash f Hf).
  destruct (split_last_dot f) as [[pre ext]|] eqn:E.
  2:{ simpl. now rewrite string_app_nil_r. }
  destruct (split_last_dot_app _ _ _ E) as [-> Hdot].
  destruct (String.eqb_spec pre EmptyString) as [->|Hpre]; simpl.
  { simpl. destruct ext; [easy|]. simpl. now rewrite string_app_nil_r. }
  destruct (String.eqb_spec (pre +:+ ext) "..") as [Hdd|Hdd]; simpl.
  { now rewrite string_app_nil_r. }
  assert (Hlen : (0 < String.length ext)%nat) by (destruct ext; simpl in *; [easy|lia]).
  assert (Hpl : (0 < String.length pre)%nat) by (destruct pre; simpl in *; [easy|lia]).
  rewrite string_length_app.
  replace (0 <? String.length ext)%nat with true by (symmetry; apply Nat.ltb_lt; lia).
  replace (String.length ext <=? String.length pre + String.length ext)%nat
    with true by (symmetry; apply Nat.leb_le; lia).
  simpl.
  assert (Hne : ext <> pre +:+ ext).
  { intros Heq. apply (f_equal String.length) in Heq. rewrite string_length_app in Heq. lia. }
  destruct (String.eqb_spec ext (pre +:+ ext)) as [Heq|_]; [easy|].
  rewrite endsWith_app.
  destruct (String.eqb_spec (pre +:+ ext) ext) as [Heq|_]; [now symmetry in Heq|].
  simpl.
  replace (String.length pre + String.length ext - String.length ext)%nat
    with (String.length pre) by lia.
  now rewrite string_take_app.
Qed.

End NodePathFacts.

(** ** JSON *)

Module JsonFacts.
Import Js Json.

Example parse_empty_object : JSON_parse "{}" = Some (JObj ∅).
Proof. reflexivity. Qed.
Example parse_trailing_prose : JSON_parse "{} :-}" = None.
Proof. reflexivity. Qed.
Example parse_two_objects : JSON_parse "{} or {}" = None.
Proof. reflexivity. Qed.
Example parse_numbers :
  JSON_parse "[0, -12, 0.5, 14176, 1e2, 25E-1]"
  = Some (JArr [JNum 0; JNum (-12); JNum (5 # 10); JNum 14176; JNum 100; JNum (25 # 10)]).
Proof. reflexivity. Qed.
Example parse_bad_number : JSON_parse "[01]" = None.
Proof. reflexivity. Qed.
Example parse_trailing_comma : JSON_parse "[1,]" = None.
Proof. reflexivity. Qed.

End JsonFacts.

(** ** Storage lookup: which file answers to a fileId *)

Module ReceiptHandlersFacts.
Import Js JsString JsStringFacts NodePath NodePathFacts.
Import ReceiptProcessor ReceiptHandlers Samples.

Example fileId_of_upload : fileId_of anon_jpg = "1700000000000_anonymous_1b9d6bcd".
Proof. reflexivity. Qed.

Lemma matches_lookup_spec fileId f :
  matches_lookup fileId f = true <->
  fileId_of f = fileId \/ exists l r, fileId_of f = l +:+ ("_" +:+ fileId) +:+ r.
Proof.
  unfold matches_lookup, fileId_of.
  rewrite orb_true_iff, String.eqb_eq, includes_spec. reflexivity.
Qed.

Lemma matches_process_spec fileId f :
  matches_process fileId f = true <->
  (exists r, f = (fileId +:+ ".") +:+ r)
  \/ exists l r, f = l +:+ ("_" +:+ fileId +:+ ".") +:+ r.
Proof.
  unfold matches_process.
  rewrite orb_true_iff, startsWith_spec, includes_spec. reflexivity.
Qed.

(** A name made of the fileId and a non-empty extension is found by all
    three operations. *)
Lemma exact_name_matches fileId f :
  no_slash f = true -> fileId_of f = fileId -> extname f <> EmptyString ->
  matches_lookup fileId f = true /\ matches_process fileId f = true.
Proof.
  intros Hf Hid Hext. split.
  - apply matches_lookup_spec. now left.
  - apply matches_process_spec. left.
    pose proof (basename_extname f Hf) as Hsplit. fold (fileId_of f) in Hsplit.
    rewrite Hid in Hsplit.
    destruct (extname_is_extension f) as [He|He]; [easy|].
    apply startsWith_spec in He as [r Hr].
    exists r. rewrite Hsplit at 1. rewrite Hr. now rewrite string_app_assoc.
Qed.

Lemma find_existsSync st p f :
  List.find p (files st) = Some f -> existsSync st f = true.
Proof.
  intros H. apply List.find_some in H as [Hin _].
  unfold existsSync. apply existsb_exists. exists f. split; [easy|].
  apply String.eqb_refl.
Qed.

(** On a ready server GET serves the first directory entry that matches;
    the [existsSync] test after the lookup never fails. *)
Lemma handle_get_resolution toLowerCase receiptStoragePath st fileId :
  needsBootstrap st = false -> fileId <> EmptyString ->
  handle_get toLowerCase receiptStoragePath st fileId
  = match List.find (matches_lookup fileId) (files st) with
    | Some f =>
        FileResponse (join receiptStoragePath f)
          (contentTypeFor (toLowerCase (extname (join receiptStoragePath f))))
          "private, max-age=86400"
    | None => ErrorResponse 404 "file-not-found"
    end.
Proof.
  intros Hb Hid. unfold handle_get. rewrite Hb.
  apply String.eqb_neq in Hid. rewrite Hid.
  destruct (List.find _ (files st)) as [f|] eqn:Hf; [|reflexivity].
  now rewrite (find_existsSync st _ f Hf).
Qed.

Lemma find_after_unlink fileId st f :
  List.find (matches_lookup fileId) (files st) = Some f ->
  (forall g h, In g (files st) -> In h (files st) ->
               matches_lookup fileId g = true -> matches_lookup fileId h = true -> g = h) ->
  List.find (matches_lookup fileId) (files (unlinkSync st f)) = None.
Proof.
  intros Hfind Huniq.
  apply List.find_some in Hfind as [Hin Hm].
  destruct (List.find _ (files (unlinkSync st f))) as [g|] eqn:E; [|reflexivity].
  apply List.find_some in E as [Hg Hgm]. simpl in Hg.
  apply List.filter_In in Hg as [Hg Hne].
  rewrite (Huniq g f Hg Hin Hgm Hm), String.eqb_refl in Hne. discriminate.
Qed.

Lemma lookup_or_unknown (l : list (string * string)) ext fallback :
  ~ In ext (List.map fst l) -> lookup_or (list_to_map l) ext fallback = fallback.
Proof.
  intros Hnot. unfold lookup_or.
  replace ((list_to_map l : gmap string string) !! ext) with (@None string); [reflexivity|].
  symmetry. apply not_elem_of_list_to_map_1.
  intros Hin. apply Hnot. now apply list_elem_of_In.
Qed.

(** C1, as it holds of the code: GET and DELETE take a stored file for a fileId exactly
    when its name without extension equals the fileId or contains
    [_fileId]; POST /process exactly when the file name starts with
    [fileId.] or contains [_fileId.]; a file named by the fileId plus a
    non-empty extension is matched by all three. *)
Theorem C1_lookup_is_substring_based fileId f :
  no_slash f = true ->
  (matches_lookup fileId f = true <->
     fileId_of f = fileId \/ exists l r, fileId_of f = l +:+ ("_" +:+ fileId) +:+ r)
  /\ (matches_process fileId f = true <->
        (exists r, f = (fileId +:+ ".") +:+ r)
        \/ exists l r, f = l +:+ ("_" +:+ fileId +:+ ".") +:+ r)
  /\ (fileId_of f = fileId -> extname f <> EmptyString ->
      matches_lookup fileId f = true /\ matches_process fileId f = true).
Proof.
  intros Hf. split; [apply matches_lookup_spec|].
  split; [apply matches_process_spec|].
  now apply exact_name_matches.
Qed.

Lemma C1_lookup_is_substring_based_witness :
  no_slash anon_jpg = true
  /\ matches_lookup "1700000000000_anonymous_1b9d6bcd" anon_jpg = true
  /\ matches_process "1700000000000_anonymous_1b9d6bcd" anon_jpg = true.
Proof.
  split; [reflexivity|].
  apply (C1_lookup_is_substring_based "1700000000000_anonymous_1b9d6bcd" anon_jpg);
    [reflexivity | reflexivity | discriminate].
Defined.

(** Against C1 as the specification words it: [1b9d6bcd] is only the tail of a stored file's
    name, yet retrieve, delete and process all match that file for it; and
    [anonymous], the name of no file, matches two stored files in retrieve
    and delete, the first of which is served. *)
Lemma C1_exact_match_fails :
  exact_match "1b9d6bcd" anon_jpg = false
  /\ matches_lookup "1b9d6bcd" anon_jpg = true
  /\ matches_process "1b9d6bcd" anon_jpg = true
  /\ matches_lookup "anonymous" anon_jpg = true
  /\ matches_lookup "anonymous" anon_png = true
  /\ handle_get ascii_toLowerCase "/data/receipts" two_uploads "anonymous"
     = FileResponse ("/data/receipts/" +:+ anon_jpg) "image/jpeg"
         "private, max-age=86400".
Proof.
  repeat split; vm_compute; reflexivity.
Qed.




Section WithServer.
Variable toLowerCase : string -> string.
Variable receiptStoragePath : string.

End WithServer.



(** C10: for an extension outside the seven known ones the extraction
    engine labels the image [image/jpeg], while the retrieval handler
    answers [application/octet-stream]. *)
Theorem C10_unknown_extension_mime ext :
  is_extension ext ->
  ~ In ext known_extensions ->
  getMimeType ext = "image/jpeg"
  /\ contentTypeFor ext = "application/octet-stream".
Proof.
  intros _ Hnot. split; apply lookup_or_unknown; exact Hnot.
Qed.

Lemma C10_unknown_extension_mime_witness :
  getMimeType (extname "/data/receipts/scan.bmp") = "image/jpeg"
  /\ contentTypeFor (extname "/data/receipts/scan.bmp") = "application/octet-stream".
Proof.
  apply (C10_unknown_extension_mime (extname "/data/receipts/scan.bmp")).
  - apply extname_is_extension.
  - vm_compute. intros H. repeat (destruct H as [H|H]; [discriminate|]). exact H.
Defined.

End ReceiptHandlersFacts.

(** ** Extraction engine *)

Module ReceiptProcessorFacts.
Import Js JsString JsStringFacts ReceiptProcessor Spec Samples.

Lemma from_first_open_app pre rest :
  lacks "{" pre = true ->
  from_first_open (pre +:+ String "{" rest) = Some (String "{" rest).
Proof.
  induction pre as [|c pre IH]; simpl; [reflexivity|].
  intros [Hc Hp]%andb_true_iff. apply negb_true_iff in Hc. rewrite Hc. auto.
Qed.

Lemma from_first_open_some s t :
  from_first_open s = Some t ->
  exists pre rest, s = pre +:+ t /\ t = String "{" rest /\ lacks "{" pre = true.
Proof.
  induction s as [|c s IH]; simpl; [discriminate|].
  destruct (Ascii.eqb_spec c "{"%char) as [->|Hne].
  - intros [= <-]. now exists EmptyString, s.
  - intros H. destruct (IH H) as (pre & rest & -> & -> & Hp).
    exists (String c pre), rest. simpl. rewrite Hp.
    apply Ascii.eqb_neq in Hne. now rewrite Hne.
Qed.

Lemma upto_last_close_lacks s :
  upto_last_close s = None <-> lacks "}" s = true.
Proof.
  induction s as [|c s IH]; simpl; [easy|].
  destruct (upto_last_close s) as [r|].
  - split; [discriminate|]. intros [_ Hs]%andb_true_iff.
    now apply IH in Hs.
  - destruct (Ascii.eqb c "}"); simpl; [easy|].
    split; [intros _; now apply IH | reflexivity].
Qed.

Lemma upto_last_close_app body post :
  lacks "}" post = true ->
  upto_last_close (body +:+ String "}" post) = Some (body +:+ "}").
Proof.
  intros Hp. induction body as [|c body IH]; simpl.
  - apply upto_last_close_lacks in Hp. now rewrite Hp.
  - now rewrite IH.
Qed.

Lemma upto_last_close_some s m :
  upto_last_close s = Some m ->
  exists body post, s = m +:+ post /\ m = body +:+ "}" /\ lacks "}" post = true.
Proof.
  revert m; induction s as [|c s IH]; intros m; simpl; [discriminate|].
  destruct (upto_last_close s) as [r|] eqn:E.
  - intros [= <-]. destruct (IH r eq_refl) as (body & post & -> & -> & Hp).
    now exists (String c body), post.
  - destruct (Ascii.eqb_spec c "}"%char) as [->|]; [|discriminate].
    intros [= <-]. exists EmptyString, s. repeat split.
    now apply upto_last_close_lacks.
Qed.

(** The regular expression selects the text from the first opening brace
    to the last closing brace. *)
Lemma jsonMatch_spec content m :
  jsonMatch content = Some m <->
  exists pre body post,
    content = pre +:+ String "{" (body +:+ String "}" post)
    /\ lacks "{" pre = true /\ lacks "}" post = true
    /\ m = String "{" (body +:+ "}").
Proof.
  unfold jsonMatch. split.
  - destruct (from_first_open content) as [t|] eqn:Ht; [|discriminate].
    apply from_first_open_some in Ht as (pre & rest & -> & -> & Hpre).
    intros Hm. apply upto_last_close_some in Hm as (body & post & Hs & -> & Hpost).
    destruct body as [|b body]; simpl in Hs.
    + injection Hs as Hb _. discriminate.
    + injection Hs as <- ->. exists pre, body, post. repeat split; try easy.
      f_equal. f_equal. rewrite string_app_assoc. reflexivity.
  - intros (pre & body & post & -> & Hpre & Hpost & ->).
    rewrite (from_first_open_app _ _ Hpre).
    apply (upto_last_close_app (String "{" body) post Hpost).
Qed.

Lemma lacks_app c a b : lacks c (a +:+ b) = lacks c a && lacks c b.
Proof. induction a as [|d a IH]; simpl; [reflexivity|]. now rewrite IH, andb_assoc. Qed.

Lemma from_first_open_later pre x :
  exists u, from_first_open (pre +:+ String "{" x) = Some (String "{" (u +:+ x)).
Proof.
  induction pre as [|c pre IH]; simpl.
  - now exists EmptyString.
  - destruct (Ascii.eqb_spec c "{"%char) as [->|_]; [|exact IH].
    exists (pre +:+ "{"). now rewrite string_app_assoc.
Qed.

(** No brace pair at all: the match fails. *)
Lemma jsonMatch_none content :
  jsonMatch content = None <->
  ~ exists pre body post, content = pre +:+ String "{" (body +:+ String "}" post).
Proof.
  split.
  - intros Hnone (pre & body & post & ->). unfold jsonMatch in Hnone.
    destruct (from_first_open_later pre (body +:+ String "}" post)) as [u Hu].
    rewrite Hu in Hnone. apply upto_last_close_lacks in Hnone.
    simpl in Hnone. rewrite !lacks_app in Hnone. simpl in Hnone.
    rewrite !andb_false_r in Hnone. discriminate.
  - intros Hno. destruct (jsonMatch content) as [m|] eqn:E; [|reflexivity].
    exfalso. apply Hno. apply jsonMatch_spec in E as (pre & body & post & H & _).
    eauto.
Qed.

Lemma nullish_falsy v : nullish v = true -> truthy v = false.
Proof. now destruct v. Qed.

Lemma js_or_kept a b : kept_or_default a b (a ||| b).
Proof.
  unfold kept_or_default, js_or. split.
  - now intros ->.
  - intros H. now rewrite (nullish_falsy a H).
Qed.

Lemma js_or_truthy a b : truthy a = true -> a ||| b = a.
Proof. unfold js_or. now intros ->. Qed.

Lemma js_or_nullish a b : nullish a = true -> a ||| b = b.
Proof. unfold js_or. intros H. now rewrite (nullish_falsy a H). Qed.

Lemma get_prop_own v k : nullish v = false -> get_prop v k = Some (own v k).
Proof. unfold own. now destruct v. Qed.

(** A value of the wanted shape, or the default of that shape. *)
Lemma js_or_shape shape a b :
  missing_or shape a = true -> shape b = true -> shape (a ||| b) = true.
Proof.
  unfold missing_or, js_or. intros Ha Hb.
  destruct (truthy a) eqn:T; [|exact Hb].
  destruct (nullish a) eqn:N; [|exact Ha].
  apply nullish_falsy in N. congruence.
Qed.

Lemma js_or_missing_or shape a b :
  missing_or shape a = true -> missing_or shape b = true ->
  missing_or shape (a ||| b) = true.
Proof.
  unfold js_or. intros Ha Hb. now destruct (truthy a).
Qed.

Lemma mapM_total {A B} (f : A -> option B) (g : A -> B) (l : list A) :
  Forall (fun x => f x = Some (g x)) l -> mapM f l = Some (g <$> l).
Proof.
  intros H. apply mapM_Some. induction H; constructor; assumption.
Qed.

Section WithParser.
Variable JSON_parse : string -> option JsValue.
Variable today : string.

#[local] Abbreviation normalized := (normalized today).

Lemma normalizeExpense_total parsedData expense :
  nullish expense = false ->
  normalizeExpense today (own parsedData "merchant") (own parsedData "date") expense
  = Some (normalized parsedData expense).
Proof.
  intros H. unfold normalizeExpense. rewrite !(get_prop_own expense _ H).
  reflexivity.
Qed.

Lemma normalize_total content parsedData items :
  nullish parsedData = false ->
  own parsedData "expenses" ||| JArr [] = JArr items ->
  Forall (fun e => nullish e = false) items ->
  exists result,
    normalize today content parsedData = Some result
    /\ expenses result = normalized parsedData <$> items.
Proof.
  intros Hpd Hitems Hall. unfold normalize.
  rewrite !(get_prop_own parsedData _ Hpd). simpl.
  rewrite Hitems. simpl.
  rewrite (mapM_total _ (normalized parsedData)).
  - simpl. eexists. split; reflexivity.
  - eapply Forall_impl; [exact Hall|]. intros e He.
    now apply normalizeExpense_total.
Qed.

Lemma normalized_spec parsedData expense :
  normalized_from today parsedData expense (normalized parsedData expense).
Proof.
  unfold normalized_from, Spec.normalized. simpl.
  refine (conj (js_or_kept _ _) (conj _ (conj _ (conj _ (conj _
            (conj (js_or_kept _ _) (conj (js_or_kept _ _)
               (conj (js_or_kept _ _) (js_or_kept _ _))))))))).
  - intros H. rewrite (js_or_truthy _ (own expense "merchant") H).
    now apply js_or_truthy.
  - intros H. rewrite (js_or_nullish _ (own expense "merchant") H).
    apply js_or_kept.
  - intros H. rewrite (js_or_truthy _ (own parsedData "date") H).
    now apply js_or_truthy.
  - intros H. rewrite (js_or_nullish _ (own parsedData "date") H).
    apply js_or_kept.
Qed.

Lemma normalized_well_shaped parsedData expense :
  iso_date_shape today = true ->
  missing_or is_iso_date (own parsedData "date") = true ->
  expense_input_ok expense ->
  well_shaped (normalized parsedData expense) = true.
Proof.
  intros Htoday Hpd (_ & Ha & Hd & Hc). unfold well_shaped, Spec.normalized. simpl.
  rewrite (js_or_shape is_nonneg_integer _ (JNum 0) Ha eq_refl).
  rewrite (js_or_shape in_unit_interval _ (JNum (1 # 2)) Hc eq_refl).
  rewrite (js_or_shape is_iso_date _ (JStr today)); [reflexivity | | exact Htoday].
  now apply js_or_missing_or.
Qed.

Lemma processContent_ParseError content why :
  processContent JSON_parse today content = inl (ParseError why) <->
  parseContent JSON_parse content = inl (ParseError why).
Proof.
  unfold processContent.
  destruct (parseContent JSON_parse content) as [err|parsedData].
  - split; intros [= ->]; reflexivity.
  - destruct (normalize today content parsedData); split; discriminate.
Qed.

(** Once the key is configured, the image is there and the model has
    answered with some text, everything is decided by that text. *)
Lemma processReceipt_returned key content :
  key <> EmptyString -> content <> EmptyString ->
  processReceipt JSON_parse today (Some key) true (CallReturned (Some content))
  = processContent JSON_parse today content.
Proof. intros Hk Hc. destruct key, content; easy. Qed.

(** C2, as it holds of the code: the engine parses the text from the first opening
    brace to the last closing brace of the reply; processing fails with
    ParseError exactly when there is no such span (no opening brace with a
    closing brace after it) or the span is not JSON; when no opening brace
    precedes the object and no closing brace follows it, the span is the
    object itself. *)
Theorem C2_span_first_open_to_last_close content :
  (forall m, jsonMatch content = Some m <->
     exists pre body post,
       content = pre +:+ String "{" (body +:+ String "}" post)
       /\ lacks "{" pre = true /\ lacks "}" post = true
       /\ m = String "{" (body +:+ "}"))
  /\ (jsonMatch content = None <->
      ~ exists pre body post,
          content = pre +:+ String "{" (body +:+ String "}" post))
  /\ (forall why,
        processContent JSON_parse today content = inl (ParseError why) <->
        (jsonMatch content = None /\ why = NoJsonFound)
        \/ (exists m, jsonMatch content = Some m /\ JSON_parse m = None
                      /\ why = InvalidJson))
  /\ (forall pre body post,
        lacks "{" pre = true -> lacks "}" post = true ->
        content = pre +:+ String "{" (body +:+ String "}" post) ->
        parseContent JSON_parse content
        = match JSON_parse (String "{" (body +:+ "}")) with
          | Some parsedData => inr parsedData
          | None => inl (ParseError InvalidJson)
          end).
Proof.
  split; [intros m; apply jsonMatch_spec|].
  split; [apply jsonMatch_none|]. split.
  - intros why. rewrite processContent_ParseError. unfold parseContent.
    destruct (jsonMatch content) as [m|].
    + destruct (JSON_parse m) eqn:Hp.
      * split; [discriminate|]. intros [[? _]|(m' & [= <-] & Hm' & _)]; congruence.
      * split.
        -- intros [= <-]. right. now exists m.
        -- intros [[? _]|(m' & _ & _ & ->)]; [discriminate | reflexivity].
    + split.
      * intros [= <-]. now left.
      * intros [[_ ->]|(m' & ? & _)]; [reflexivity | discriminate].
  - intros pre body post Hpre Hpost ->. unfold parseContent.
    replace (jsonMatch _) with (Some (String "{" (body +:+ "}"))); [reflexivity|].
    symmetry. apply jsonMatch_spec. now exists pre, body, post.
Qed.

(** C3, as it holds of the code: for every parsed response whose [expenses] is an
    array of objects (or missing), normalization returns one expense per
    element, in order; each keeps every own field that is truthy and takes
    the default for every own field that is missing - amount 0, date the
    top-level date or else today, categoryId null, categoryName
    "Uncategorized", note empty, confidence 0.5 - except that merchant is
    the top-level merchant whenever that is truthy, and the expense's own
    merchant only when the top-level one is missing. *)
Theorem C3_defaults_for_missing_fields content parsedData items :
  nullish parsedData = false ->
  own parsedData "expenses" ||| JArr [] = JArr items ->
  Forall (fun e => nullish e = false) items ->
  exists result,
    normalize today content parsedData = Some result
    /\ Forall2 (normalized_from today parsedData) items (expenses result).
Proof.
  intros Hpd Hitems Hall.
  destruct (normalize_total content parsedData items Hpd Hitems Hall)
    as (result & Hres & Hes).
  exists result. split; [exact Hres|]. rewrite Hes.
  apply Forall2_fmap_r, Forall_Forall2_diag, Forall_forall.
  intros e _. apply normalized_spec.
Qed.

Lemma js_or_passed a b : passed_or_replaced a b (a ||| b).
Proof. unfold passed_or_replaced, js_or. split; now intros ->. Qed.

Lemma normalized_as_supplied parsedData expense :
  returned_as_supplied today parsedData expense (normalized parsedData expense).
Proof.
  unfold returned_as_supplied, Spec.normalized. simpl.
  split; [apply js_or_passed|]. split; [apply js_or_passed|]. split.
  - intros H. rewrite (js_or_truthy _ (own parsedData "date") H).
    now apply js_or_truthy.
  - intros H. unfold js_or at 2. rewrite H. apply js_or_passed.
Qed.

Lemma shape_js_or shape a b :
  shape b = true -> shape (a ||| b) = true <-> falsy_or shape a = true.
Proof.
  clear JSON_parse today.
  unfold js_or, falsy_or. intros Hb. destruct (truthy a); simpl; tauto.
Qed.

Lemma normalized_shapes parsedData expense :
  well_shaped (normalized parsedData expense) = true
  <-> supplied_shapes_ok today parsedData expense.
Proof.
  clear JSON_parse.
  unfold well_shaped, supplied_shapes_ok, Spec.normalized. simpl.
  rewrite !andb_true_iff.
  rewrite (shape_js_or is_nonneg_integer _ (JNum 0) eq_refl).
  rewrite (shape_js_or in_unit_interval _ (JNum (1 # 2)) eq_refl).
  unfold js_or, falsy_or.
  destruct (truthy (own expense "date")) eqn:Hd; simpl.
  - rewrite Hd. intuition congruence.
  - destruct (truthy (own parsedData "date")) eqn:Hp; simpl; intuition congruence.
Qed.

(** C4, as it holds of the code: the engine checks no ranges or formats.
    For a parsed response whose expenses are an array of elements other
    than null (or are missing) it returns one expense per element; each
    takes its amount, confidence and date from the values supplied: a
    truthy value is returned as it is, whatever its shape, and a falsy
    one is replaced (amount by 0, confidence by 0.5, date by the
    top-level date when that is truthy and by today's date otherwise).
    So a returned expense has a non-negative integer amount, a
    YYYY-MM-DD date and a confidence in [0,1] exactly when the values it
    takes them from have these shapes; in particular whenever each value
    the model supplied is missing or of the shape and today's date is
    rendered as YYYY-MM-DD. *)
Theorem C4_shapes_pass_through content parsedData items :
  nullish parsedData = false ->
  own parsedData "expenses" ||| JArr [] = JArr items ->
  Forall (fun e => nullish e = false) items ->
  exists result,
    normalize today content parsedData = Some result
    /\ Forall2 (returned_as_supplied today parsedData) items (expenses result)
    /\ Forall2 (fun e r =>
                  well_shaped r = true <-> supplied_shapes_ok today parsedData e)
         items (expenses result)
    /\ (iso_date_shape today = true ->
        missing_or is_iso_date (own parsedData "date") = true ->
        Forall expense_input_ok items ->
        Forall (fun r => well_shaped r = true) (expenses result)).
Proof.
  intros Hpd Hitems Hnn.
  destruct (normalize_total content parsedData items Hpd Hitems Hnn)
    as (result & Hres & Hes).
  exists result. split; [exact Hres|]. rewrite Hes. split; [|split].
  - apply Forall2_fmap_r, Forall_Forall2_diag, Forall_forall.
    intros e _. apply normalized_as_supplied.
  - apply Forall2_fmap_r, Forall_Forall2_diag, Forall_forall.
    intros e _. apply normalized_shapes.
  - intros Htoday Hdate Hall.
    apply Forall_fmap. eapply Forall_impl; [exact Hall|].
    intros e He. now apply normalized_well_shaped.
Qed.
End WithParser.

(** A reply without braces: ParseError, nothing is returned. *)
Example reply_without_braces :
  processContent Json.JSON_parse "2024-06-01" "I cannot read this receipt."
  = inl (ParseError NoJsonFound).
Proof. reflexivity. Qed.

Lemma C2_span_first_open_to_last_close_witness :
  parseContent Json.JSON_parse "note: {} done" = inr (JObj ∅).
Proof.
  exact (proj2 (proj2 (proj2 (C2_span_first_open_to_last_close
                         Json.JSON_parse "2024-06-01" "note: {} done")))
           "note: " EmptyString " done" eq_refl eq_refl eq_refl).
Defined.

(** Against C2 as the specification words it: the reply holds prose and one well-formed JSON
    object, [{}]; the engine does not extract that object but everything up
    to the last closing brace of the prose, and fails with ParseError. *)
Lemma C2_balanced_object_not_extracted :
  first_balanced_object reply_with_braces_in_prose = Some "{}"
  /\ Json.JSON_parse "{}" = Some (JObj ∅)
  /\ jsonMatch reply_with_braces_in_prose = Some "{} (no items; see {notes}"
  /\ processContent Json.JSON_parse "2024-06-01" reply_with_braces_in_prose
     = inl (ParseError InvalidJson).
Proof. repeat split; vm_compute; reflexivity. Qed.

Lemma C3_defaults_for_missing_fields_witness :
  exists result,
    normalize "2024-06-01" reply_groceries groceries_parsed = Some result
    /\ Forall2 (normalized_from "2024-06-01" groceries_parsed) groceries_items
         (expenses result).
Proof.
  apply (C3_defaults_for_missing_fields "2024-06-01" reply_groceries
           groceries_parsed groceries_items).
  - reflexivity.
  - vm_compute. reflexivity.
  - repeat constructor.
Defined.

(** Against C3 as the specification words it: the expense's own merchant "Kiosk" is replaced by
    the top-level merchant "Mall", and its confidence 0 by 0.5. *)
Lemma C3_own_merchant_and_zero_confidence_replaced :
  match processContent Json.JSON_parse "2024-06-01" reply_own_merchant with
  | inr r =>
      List.map (fun e => (merchant e, confidence e)) (expenses r)
      = [(JStr "Mall", JNum (1 # 2))]
  | inl _ => False
  end.
Proof. vm_compute. reflexivity. Qed.

Lemma C4_shapes_pass_through_witness :
  exists result,
    normalize "2024-06-01" reply_groceries groceries_parsed = Some result
    /\ Forall (fun r => well_shaped r = true) (expenses result).
Proof.
  destruct (C4_shapes_pass_through "2024-06-01" reply_groceries
              groceries_parsed groceries_items)
    as (result & Hres & _ & _ & Hshapes).
  - reflexivity.
  - vm_compute. reflexivity.
  - repeat constructor.
  - exists result. split; [exact Hres|]. apply Hshapes.
    + reflexivity.
    + vm_compute. reflexivity.
    + repeat (constructor; [repeat split; vm_compute; reflexivity|]). constructor.
Defined.

(** Against C4 as the specification words it: a negative amount, a date that is not YYYY-MM-DD
    and a confidence of 7 are returned as the model gave them. *)
Lemma C4_ill_shaped_values_returned :
  match processContent Json.JSON_parse "2024-06-01" reply_ill_shaped with
  | inr r =>
      List.map (fun e => (amount e, date e, confidence e)) (expenses r)
      = [(JNum (-5), JStr "yesterday", JNum 7)]
      /\ forallb well_shaped (expenses r) = false
  | inl _ => False
  end.
Proof. vm_compute. split; reflexivity. Qed.

End ReceiptProcessorFacts.

(** ** Review screen: editing and commit *)

Module ReceiptReviewFacts.
Import Js JsString ReceiptReview ReviewSpec ReviewSamples.

Lemma strict_eq_string_spec v s : strict_eq_string v s = true <-> v = JStr s.
Proof.
  destruct v; simpl; try (split; [discriminate | intros [=]]).
  rewrite String.eqb_eq. split; [now intros -> | now intros [= ->]].
Qed.

Lemma strict_eq_string_false v s : strict_eq_string v s = false <-> v <> JStr s.
Proof.
  rewrite <- strict_eq_string_spec. destruct (strict_eq_string v s); split; congruence.
Qed.

(** C9: [updateExpense] keeps the length and order of the list; at every
    position, an expense whose id is the given one gets the named property
    set to the value with all its other properties unchanged, and any other
    expense is left as it is; when no expense has the id the list is
    unchanged. *)
Theorem C9_update_touches_one_field id field value (prev : list EditableExpense) :
  length (updateExpense id field value prev) = length prev
  /\ (forall i (expense : EditableExpense),
        prev !! i = Some expense ->
        exists expense' : EditableExpense,
          updateExpense id field value prev !! i = Some expense'
          /\ (prop expense "id" = JStr id ->
              expense' !! field = Some value
              /\ forall k, k <> field -> expense' !! k = expense !! k)
          /\ (prop expense "id" <> JStr id -> expense' = expense))
  /\ ((forall expense, expense ∈ prev -> prop expense "id" <> JStr id) ->
      updateExpense id field value prev = prev).
Proof.
  unfold updateExpense. split; [apply length_fmap|]. split.
  - intros i expense Hi. rewrite list_lookup_fmap, Hi. simpl.
    eexists. split; [reflexivity|]. split.
    + intros Hid. apply strict_eq_string_spec in Hid. rewrite Hid.
      split; [apply lookup_insert_eq|].
      intros k Hk. now apply lookup_insert_ne.
    + intros Hid. apply strict_eq_string_false in Hid. now rewrite Hid.
  - intros Hnone. induction prev as [|e prev IH]; [reflexivity|].
    rewrite fmap_cons. f_equal.
    + assert (He : prop e "id" <> JStr id) by (apply Hnone; left).
      apply strict_eq_string_false in He. now rewrite He.
    + apply IH. intros x Hx. apply Hnone. now right.
Qed.

Section WithBackend.
Variable toLowerCase : string -> string.
Variable newPayeeId : nat -> string.
Variable tempId : nat -> string.

#[local] Abbreviation resolvePayee := (resolvePayee toLowerCase newPayeeId).
#[local] Abbreviation save_loop := (save_loop toLowerCase newPayeeId tempId).
#[local] Abbreviation handleSave := (handleSave toLowerCase newPayeeId tempId).

Lemma find_payee_string payees m :
  find_payee toLowerCase payees (JStr m)
  = inr (List.find
           (fun p => String.eqb (toLowerCase (payee_name p)) (toLowerCase m))
           payees).
Proof. now destruct payees. Qed.

Lemma resolvePayee_untouched payees (expense : EditableExpense) w :
  truthy (prop expense "payee") = true \/ truthy (prop expense "merchant") = false ->
  resolvePayee payees expense w = (inr (prop expense "payee"), w).
Proof.
  unfold ReceiptReview.resolvePayee. intros [-> | ->]; simpl; [reflexivity|].
  now rewrite andb_false_r.
Qed.

Lemma resolvePayee_lookup payees (expense : EditableExpense) m w :
  truthy (prop expense "payee") = false ->
  prop expense "merchant" = JStr m ->
  m <> EmptyString ->
  resolvePayee payees expense w
  = match List.find
            (fun p => String.eqb (toLowerCase (payee_name p)) (toLowerCase m))
            payees with
    | Some existingPayee => (inr (JStr (payee_id existingPayee)), w)
    | None => let '(id, w') := send_payee_create newPayeeId (JStr m) w in (inr id, w')
    end.
Proof.
  intros Hp Hm Hne. unfold ReceiptReview.resolvePayee. rewrite Hp, Hm. simpl.
  assert (String.eqb m EmptyString = false) as -> by now apply String.eqb_neq.
  simpl. rewrite find_payee_string.
  destruct (List.find _ payees); reflexivity.
Qed.

(** C7: an expense without a payee and with a non-empty merchant string
    takes the id of the first payee whose lower-cased name equals the
    lower-cased merchant, creating nothing; when there is none, a payee of
    that name is created and its generated id is used; an expense with a
    payee of its own or with an empty merchant keeps its payee and nothing
    is looked up or created. *)
Theorem C7_payee_lookup_or_create payees (expense : EditableExpense) w :
  (forall m,
     truthy (prop expense "payee") = false ->
     prop expense "merchant" = JStr m ->
     m <> EmptyString ->
     (forall existingPayee,
        List.find
          (fun p => String.eqb (toLowerCase (payee_name p)) (toLowerCase m))
          payees = Some existingPayee ->
        resolvePayee payees expense w = (inr (JStr (payee_id existingPayee)), w))
     /\ ((forall p, In p payees ->
                    toLowerCase (payee_name p) <> toLowerCase m) ->
         resolvePayee payees expense w
         = (inr (JStr (newPayeeId (length (created_payees w)))),
            {| created_payees :=
                 created_payees w
                 ++ [(newPayeeId (length (created_payees w)), JStr m)];
               batches := batches w |})))
  /\ (truthy (prop expense "payee") = true
      \/ prop expense "merchant" = JStr EmptyString ->
      resolvePayee payees expense w = (inr (prop expense "payee"), w)).
Proof.
  split.
  - intros m Hp Hm Hne. rewrite (resolvePayee_lookup payees expense m w Hp Hm Hne).
    split.
    + now intros existingPayee ->.
    + intros Hnone.
      destruct (List.find _ payees) as [p|] eqn:Hfind; [|reflexivity].
      apply List.find_some in Hfind as [Hin Heq].
      apply String.eqb_eq in Heq. now destruct (Hnone p Hin).
  - intros [Hp | Hm]; apply resolvePayee_untouched; [now left | right].
    now rewrite Hm.
Qed.

Lemma resolvePayee_typed payees (expense : EditableExpense) w :
  merchant_typed expense ->
  exists payeeId w',
    resolvePayee payees expense w = (inr payeeId, w')
    /\ batches w' = batches w.
Proof.
  intros [m Hm]. unfold ReceiptReview.resolvePayee. rewrite Hm.
  destruct (negb _ && _); [|now eexists _, _].
  rewrite find_payee_string.
  destruct (List.find _ payees); simpl; now eexists _, _.
Qed.

Lemma has_account_truthy (e : EditableExpense) :
  has_account e -> truthy (prop e "account") = true.
Proof.
  intros (a & -> & Ha). simpl. apply negb_true_iff. now apply String.eqb_neq.
Qed.

(** The loop, when every expense has an account. *)
Lemma save_loop_all_accounts payees url expenses :
  forall index acc w,
    Forall merchant_typed expenses ->
    Forall (fun e => truthy (prop e "account") = true) expenses ->
    exists txs w',
      save_loop payees url index expenses acc w = (inr (acc ++ txs), w')
      /\ batches w' = batches w
      /\ length txs = length expenses
      /\ forall i (e : EditableExpense),
           expenses !! i = Some e ->
           exists t wi wi',
             txs !! i = Some t
             /\ resolvePayee payees e wi = (inr (t_payee t), wi')
             /\ t = make_transaction tempId (index + i) url e (t_payee t).
Proof.
  induction expenses as [|e expenses IH]; intros index acc w Hty Hacc.
  - exists [], w. simpl. rewrite app_nil_r. repeat split. intros i e [=].
  - inversion Hty as [|? ? Hte Htys]; subst.
    inversion Hacc as [|? ? Hae Haccs]; subst.
    simpl. rewrite Hae. simpl.
    destruct (resolvePayee_typed payees e w Hte) as (p & w1 & Hres & Hb1).
    rewrite Hres.
    destruct (IH (S index) (acc ++ [make_transaction tempId index url e p]) w1 Htys Haccs)
      as (txs & w' & Hloop & Hb & Hlen & Hall).
    exists (make_transaction tempId index url e p :: txs), w'.
    rewrite Hloop, <- app_assoc. simpl. repeat split; [congruence | congruence |].
    intros [|i] e' Hi; simpl in Hi.
    + injection Hi as <-. exists (make_transaction tempId index url e p), w, w1.
      simpl. rewrite Nat.add_0_r. repeat split. exact Hres.
    + destruct (Hall i e' Hi) as (t & wi & wi' & Ht & Hr & Heq).
      exists t, wi, wi'. simpl. repeat split; try assumption.
      now replace (index + S i)%nat with (S index + i)%nat by lia.
Qed.

Lemma resolvePayee_batches payees (expense : EditableExpense) w r w' :
  resolvePayee payees expense w = (r, w') -> batches w' = batches w.
Proof.
  unfold ReceiptReview.resolvePayee.
  destruct (negb _ && _); [|now intros [= _ <-]].
  destruct (find_payee toLowerCase payees (prop expense "merchant"))
    as [err|[p|]]; now intros [= _ <-].
Qed.

(** The loop, when some expense has no account. *)
Lemma save_loop_missing_account payees url expenses :
  forall index acc w,
    Exists lacks_account expenses ->
    exists err w',
      save_loop payees url index expenses acc w = (inl err, w')
      /\ batches w' = batches w
      /\ (Forall merchant_typed expenses -> err = MissingAccount).
Proof.
  induction expenses as [|e expenses IH]; intros index acc w Hex.
  - inversion Hex.
  - simpl. destruct (truthy (prop e "account")) eqn:Hae; simpl.
    + destruct (resolvePayee payees e w) as [[err|p] w1] eqn:Hres.
      * exists err, w1. split; [reflexivity|].
        split; [exact (resolvePayee_batches _ _ _ _ _ Hres)|].
        intros Hty. inversion Hty as [|? ? Hte _]; subst.
        destruct (resolvePayee_typed payees e w Hte) as (p & w2 & Hres' & _).
        congruence.
      * assert (Hex' : Exists lacks_account expenses).
        { inversion Hex as [? ? Hl|]; subst; [|assumption].
          unfold lacks_account in Hl. congruence. }
        destruct (IH (S index) (acc ++ [make_transaction tempId index url e p]) w1 Hex')
          as (err & w' & Hloop & Hb & Herr).
        exists err, w'. split; [exact Hloop|].
        split; [rewrite Hb; exact (resolvePayee_batches _ _ _ _ _ Hres)|].
        intros Hty. apply Herr. now inversion Hty.
    + exists MissingAccount, w. repeat split.
Qed.

(** Behind the Save button: once [canSave] holds, the loop cannot stop at
    a missing account. *)
Lemma canSave_no_missing_account payees url expenses w :
  canSave expenses = true ->
  Forall merchant_typed expenses ->
  exists txs w',
    save_loop payees url 0 expenses [] w = (inr txs, w')
    /\ length txs = length expenses.
Proof.
  unfold canSave. intros [_ Hall]%andb_true_iff Hty.
  rewrite forallb_forall in Hall.
  assert (Hacc : Forall (fun e => truthy (prop e "account") = true) expenses).
  { apply List.Forall_forall. intros e He. apply Hall. exact He. }
  destruct (save_loop_all_accounts payees url expenses 0 [] w Hty Hacc)
    as (txs & w' & Hloop & _ & Hlen & _).
  now exists txs, w'.
Qed.

(** C5: when some expense has no account (the property is absent, null
    or empty) the commit is rejected and no batch is sent, the error being
    'All expenses must have an account'; when every expense has an
    account, one batch is sent holding exactly one transaction per
    expense, in order, with that expense's account, date, amount and
    category, its resolved payee, the receipt link as notes and
    cleared = false. Merchants are strings, as [EditableExpense] declares;
    without that the rejection can carry a TypeError's message instead. *)
Theorem C5_commit_needs_every_account payees accountId fullReceiptUrl expenses w :
  (Exists lacks_account expenses ->
   exists message w',
     handleSave payees accountId fullReceiptUrl expenses w
     = (SaveFailed message, w')
     /\ batches w' = batches w
     /\ (Forall merchant_typed expenses ->
         message = "All expenses must have an account"))
  /\ (Forall merchant_typed expenses ->
      Forall has_account expenses ->
      exists outcome txs w',
        handleSave payees accountId fullReceiptUrl expenses w = (outcome, w')
        /\ is_navigation outcome
        /\ batches w' = batches w ++ [txs]
        /\ length txs = length expenses
        /\ forall i (e : EditableExpense),
             expenses !! i = Some e ->
             exists t wi wi',
               txs !! i = Some t
               /\ t_account t = prop e "account"
               /\ t_date t = prop e "date"
               /\ t_amount t = prop e "amount"
               /\ resolvePayee payees e wi = (inr (t_payee t), wi')
               /\ t_category t = prop e "categoryId"
               /\ t_notes t = fullReceiptUrl
               /\ t_cleared t = false).
Proof.
  split.
  - intros Hex.
    destruct (save_loop_missing_account payees fullReceiptUrl expenses 0 [] w Hex)
      as (err & w' & Hloop & Hb & Herr).
    exists (error_message err), w'. unfold ReceiptReview.handleSave.
    rewrite Hloop. repeat split; [exact Hb|].
    intros Hty. now rewrite (Herr Hty).
  - intros Hty Hacc.
    assert (Hacc' : Forall (fun e => truthy (prop e "account") = true) expenses).
    { eapply Forall_impl; [exact Hacc|]. apply has_account_truthy. }
    destruct (save_loop_all_accounts payees fullReceiptUrl expenses 0 [] w Hty Hacc')
      as (txs & w' & Hloop & Hb & Hlen & Hall).
    unfold ReceiptReview.handleSave. rewrite Hloop. simpl.
    assert (Hfields :
      forall i (e : EditableExpense),
        expenses !! i = Some e ->
        exists t wi wi',
          txs !! i = Some t
          /\ t_account t = prop e "account"
          /\ t_date t = prop e "date"
          /\ t_amount t = prop e "amount"
          /\ resolvePayee payees e wi = (inr (t_payee t), wi')
          /\ t_category t = prop e "categoryId"
          /\ t_notes t = fullReceiptUrl
          /\ t_cleared t = false).
    { intros i e Hi. destruct (Hall i e Hi) as (t & wi & wi' & Ht & Hr & Heq).
      exists t, wi, wi'. split; [exact Ht|].
      repeat split; try exact Hr; rewrite Heq; reflexivity. }
    match goal with
    | |- context [if ?c then _ else _] => destruct c
    end; eexists _, txs, _; (split; [reflexivity|]); simpl; rewrite Hb;
      repeat split; assumption.
Qed.




End WithBackend.

(** An account that is the empty string counts as no account. *)
Example empty_account_is_rejected :
  handleSave ascii_toLowerCase sample_newPayeeId sample_tempId
    [coffee_shop] None "https://sync.example/receipt/r1.jpg"
    [<["account" := JStr EmptyString]> coffee_without_account] no_backend_calls
  = (SaveFailed "All expenses must have an account", no_backend_calls).
Proof. vm_compute. reflexivity. Qed.

(** The scenario of the specification: one expense, account acc1. *)
Example commit_one_expense :
  handleSave ascii_toLowerCase sample_newPayeeId sample_tempId
    [] (Some "acc1") "https://sync.example/receipt/abc123.jpg"
    [groceries] no_backend_calls
  = (NavigateAccount (JStr "acc1"),
     {| created_payees := [("payee-new-0", JStr "Shop")];
        batches :=
          [[ {| t_id := "temp-0"; t_account := JStr "acc1";
                t_date := JStr "2024-01-01"; t_amount := JNum 1200;
                t_payee := JStr "payee-new-0"; t_category := JStr "c1";
                t_notes := "https://sync.example/receipt/abc123.jpg";
                t_cleared := false |} ]] |}).
Proof. vm_compute. reflexivity. Qed.

Lemma C5_commit_needs_every_account_witness :
  exists w',
    handleSave ascii_toLowerCase sample_newPayeeId sample_tempId
      [coffee_shop] None "https://sync.example/receipt/r1.jpg"
      [groceries; coffee_without_account] no_backend_calls
    = (SaveFailed "All expenses must have an account", w')
    /\ batches w' = batches no_backend_calls.
Proof.
  destruct (proj1 (C5_commit_needs_every_account ascii_toLowerCase
                     sample_newPayeeId sample_tempId [coffee_shop] None
                     "https://sync.example/receipt/r1.jpg"
                     [groceries; coffee_without_account] no_backend_calls))
    as (message & w' & Hsave & Hbatches & Hmessage).
  - apply Exists_cons_tl, Exists_cons_hd. vm_compute. reflexivity.
  - exists w'. split; [|exact Hbatches].
    rewrite Hsave, Hmessage; [reflexivity|].
    repeat constructor; eexists; vm_compute; reflexivity.
Defined.



Lemma C7_payee_lookup_or_create_witness :
  resolvePayee ascii_toLowerCase sample_newPayeeId [coffee_shop]
    coffee_with_account no_backend_calls
  = (inr (JStr "payee-1"), no_backend_calls).
Proof.
  refine (proj1 (proj1 (C7_payee_lookup_or_create ascii_toLowerCase
                          sample_newPayeeId [coffee_shop] coffee_with_account
                          no_backend_calls)
                   "coffee shop" _ _ _) coffee_shop _);
    try reflexivity.
  discriminate.
Defined.

Lemma C9_update_touches_one_field_witness :
  length (updateExpense "expense-1" "account" (JStr "acc2")
            [groceries; coffee_without_account])
  = length [groceries; coffee_without_account].
Proof.
  exact (proj1 (C9_update_touches_one_field "expense-1" "account" (JStr "acc2")
                  [groceries; coffee_without_account])).
Defined.

End ReceiptReviewFacts.

(** * Further properties of the code *)

(** ** Paths below the storage directory *)

Module JoinFacts.
Import JsString JsStringFacts NodePath NodePathFacts ReceiptHandlers.

Lemma all_slashes_app_name d f :
  no_slash f = true -> f <> EmptyString -> all_slashes (d +:+ f) = false.
Proof.
  intros Hf Hne. induction d as [|c d IH]; simpl.
  - destruct f as [|a f]; [easy|]. simpl in *.
    apply andb_true_iff in Hf as [Ha _]. apply negb_true_iff in Ha.
    now rewrite Ha.
  - now rewrite IH, andb_false_r.
Qed.

Lemma has_later_component_join d f :
  no_slash f = true -> f <> EmptyString ->
  has_later_component (d +:+ String "/" f) = true.
Proof.
  intros Hf Hne. induction d as [|c d IH]; simpl.
  - pose proof (all_slashes_app_name EmptyString f Hf Hne) as H. simpl in H.
    now rewrite H.
  - destruct (is_slash c); [|exact IH].
    change (String "/" f) with ("/" +:+ f). rewrite <- string_app_assoc.
    now rewrite (all_slashes_app_name (d +:+ "/") f Hf Hne).
Qed.

Lemma last_component_join d f :
  no_slash f = true -> f <> EmptyString -> last_component (join d f) = f.
Proof.
  intros Hf Hne. unfold join. simpl.
  induction d as [|c d IH]; simpl.
  - now apply last_component_no_slash.
  - destruct (is_slash c); [exact IH|].
    now rewrite (has_later_component_join d f Hf Hne).
Qed.

Lemma extname_join d f :
  no_slash f = true -> f <> EmptyString -> extname (join d f) = extname f.
Proof.
  intros Hf Hne. unfold extname.
  now rewrite (last_component_join d f Hf Hne), (last_component_no_slash f Hf).
Qed.

(** A non-empty extension is a proper suffix of the name. *)
Lemma extname_shorter f :
  no_slash f = true -> extname f <> EmptyString ->
  (String.length (extname f) < String.length f)%nat.
Proof.
  intros Hf. unfold extname. rewrite (last_component_no_slash f Hf).
  destruct (split_last_dot f) as [[pre ext]|] eqn:E; [|easy].
  destruct (split_last_dot_app _ _ _ E) as [-> _].
  destruct (String.eqb_spec pre EmptyString) as [->|Hpre]; simpl; [easy|].
  destruct (String.eqb (pre +:+ ext) ".."); [easy|].
  intros _. rewrite string_length_app.
  destruct pre; [easy|]. simpl. lia.
Qed.

Lemma fileId_of_nonempty f :
  no_slash f = true -> extname f <> EmptyString -> fileId_of f <> EmptyString.
Proof.
  intros Hf He Hid. pose proof (extname_shorter f Hf He) as Hlt.
  pose proof (basename_extname f Hf) as Hsplit.
  fold (fileId_of f) in Hsplit. rewrite Hid in Hsplit. simpl in Hsplit.
  rewrite <- Hsplit in Hlt. lia.
Qed.

(** The upload handler computes the fileId on the full path; it is the
    name without its extension. *)
Lemma fileId_of_join d f :
  no_slash f = true -> f <> EmptyString ->
  basename (join d f) (extname (join d f)) = fileId_of f.
Proof.
  intros Hf Hne. rewrite (extname_join d f Hf Hne).
  unfold fileId_of, basename.
  rewrite (last_component_join d f Hf Hne), (last_component_no_slash f Hf).
  destruct (String.eqb_spec (extname f) EmptyString) as [->|He]; [reflexivity|].
  pose proof (extname_shorter f Hf He) as Hlt.
  assert (Hj : (String.length f < String.length (join d f))%nat).
  { unfold join. rewrite !string_length_app. simpl. lia. }
  assert (String.eqb (extname f) (join d f) = false) as ->.
  { apply String.eqb_neq. intros Heq. rewrite <- Heq in Hj. lia. }
  assert (String.eqb (extname f) f = false) as ->.
  { apply String.eqb_neq. intros Heq. rewrite Heq in Hlt. lia. }
  assert ((String.length (extname f) <=? String.length (join d f))%nat = true) as ->
    by (apply Nat.leb_le; lia).
  assert ((String.length (extname f) <=? String.length f)%nat = true) as ->
    by (apply Nat.leb_le; lia).
  reflexivity.
Qed.

End JoinFacts.

(** ** Upload *)

Module UploadFacts.
Import Js JsString JsStringFacts NodePath NodePathFacts JoinFacts.
Import ReceiptProcessor ReceiptHandlers ReceiptHandlersFacts ReceiptUpload.
Import Samples UploadSamples.

Lemma fileSizeMB_le bytes (maxSizeMB : Q) :
  Qle_bool (fileSizeMB bytes) maxSizeMB = true
  <-> (inject_Z (Z.of_N bytes) <= maxSizeMB * inject_Z (1024 * 1024))%Q.
Proof.
  rewrite Qle_bool_iff. unfold fileSizeMB.
  assert (Hpos : (0 < inject_Z (1024 * 1024))%Q) by reflexivity.
  split.
  - intros H. apply (Qmult_le_r _ _ _ Hpos) in H.
    assert (E : (inject_Z (Z.of_N bytes)
                 == inject_Z (Z.of_N bytes) / inject_Z (1024 * 1024)
                    * inject_Z (1024 * 1024))%Q) by (field; discriminate).
    rewrite E. exact H.
  - intros H. now apply Qle_shift_div_r.
Qed.

Lemma existsb_eqb_In x (l : list string) :
  existsb (String.eqb x) l = true <-> In x l.
Proof.
  rewrite existsb_exists. split.
  - intros (y & Hy & Heq). apply String.eqb_eq in Heq. now subst.
  - intros H. exists x. split; [exact H | apply String.eqb_refl].
Qed.

(** On the extensions validation lets through, the two MIME tables say the
    same, and it is an image type. *)
Lemma valid_extension_mime ext :
  In ext validExtensions ->
  getMimeType ext = contentTypeFor ext
  /\ startsWith (contentTypeFor ext) "image/" = true
  /\ fileFilter (contentTypeFor ext) = true.
Proof.
  intros H. repeat (destruct H as [<-|H]; [repeat split; reflexivity|]). destruct H.
Qed.

Section WithConfig.
Variable toLowerCase : string -> string.
Variable receiptStoragePath : string.
Variable maxSizeMB : Q.

#[local] Abbreviation validate := (validateReceiptImage toLowerCase maxSizeMB).
#[local] Abbreviation upload := (handle_upload toLowerCase receiptStoragePath maxSizeMB).

Lemma validate_Valid present bytes filePath :
  validate present bytes filePath = Valid ->
  present = true
  /\ (inject_Z (Z.of_N bytes) <= maxSizeMB * inject_Z (1024 * 1024))%Q
  /\ In (toLowerCase (extname filePath)) validExtensions.
Proof.
  clear receiptStoragePath. unfold ReceiptUpload.validateReceiptImage.
  rewrite <- fileSizeMB_le, <- existsb_eqb_In.
  destruct present, (Qle_bool (fileSizeMB bytes) maxSizeMB),
    (existsb (String.eqb (toLowerCase (extname filePath))) validExtensions);
    simpl; intuition congruence.
Qed.

(** [validateReceiptImage] accepts exactly the files that exist, are at
    most [maxSizeMB] MiB (the ceiling itself included) and carry one of
    the seven extensions in any letter case; the three refusals are tried
    in the order missing, too large, wrong type. *)
Theorem validateReceiptImage_verdicts present bytes filePath :
  (validate present bytes filePath = Valid <->
     present = true
     /\ (inject_Z (Z.of_N bytes) <= maxSizeMB * inject_Z (1024 * 1024))%Q
     /\ In (toLowerCase (extname filePath)) validExtensions)
  /\ (validate present bytes filePath = Invalid FileMissing <-> present = false)
  /\ (validate present bytes filePath = Invalid FileTooLarge <->
        present = true
        /\ ~ (inject_Z (Z.of_N bytes) <= maxSizeMB * inject_Z (1024 * 1024))%Q)
  /\ (validate present bytes filePath = Invalid InvalidFileType <->
        present = true
        /\ (inject_Z (Z.of_N bytes) <= maxSizeMB * inject_Z (1024 * 1024))%Q
        /\ ~ In (toLowerCase (extname filePath)) validExtensions).
Proof.
  clear receiptStoragePath. unfold ReceiptUpload.validateReceiptImage.
  rewrite <- fileSizeMB_le, <- existsb_eqb_In.
  destruct present, (Qle_bool (fileSizeMB bytes) maxSizeMB),
    (existsb (String.eqb (toLowerCase (extname filePath))) validExtensions);
    simpl; intuition congruence.
Qed.

(** A validated file is labelled alike by both sides: what the GET
    handler sends as Content-Type is what [getMimeType] tells the model,
    an image type that the upload filter allows, never the generic
    fallback. *)
Theorem validated_file_mime present bytes filePath :
  validate present bytes filePath = Valid ->
  getMimeType (toLowerCase (extname filePath))
  = contentTypeFor (toLowerCase (extname filePath))
  /\ startsWith (contentTypeFor (toLowerCase (extname filePath))) "image/" = true
  /\ fileFilter (contentTypeFor (toLowerCase (extname filePath))) = true
  /\ contentTypeFor (toLowerCase (extname filePath)) <> "application/octet-stream".
Proof.
  intros H. apply validate_Valid in H as (_ & _ & Hext).
  destruct (valid_extension_mime _ Hext) as (Heq & Himg & Hallowed).
  repeat split; try assumption.
  intros Hoct. rewrite Hoct in Himg. discriminate.
Qed.

Lemma upload_ok_inv st file fileId name bytes path st' :
  upload st (Some file) = (UploadOk fileId name bytes path, st') ->
  st' = st
  /\ In (filename file) (files st)
  /\ In (toLowerCase (extname (join receiptStoragePath (filename file))))
       validExtensions.
Proof.
  unfold ReceiptUpload.handle_upload.
  destruct (needsBootstrap st); [discriminate|].
  destruct (validate _ _ _) as [|[| |]] eqn:Hv; try discriminate.
  intros [= <- <- <- <- <-].
  apply validate_Valid in Hv as (Hp & _ & He).
  apply existsb_eqb_In in Hp. repeat split; assumption.
Qed.

(** POST /upload answers ok only for a stored file with a valid extension
    and size, and then leaves the directory as it is; when it answers
    invalid-file the file multer stored is gone again and every other
    entry is still there; in every other case the directory is unchanged
    (a file stored for a server that is not bootstrapped stays). *)
Theorem upload_outcomes st file resp st' :
  upload st (Some file) = (resp, st') ->
  match resp with
  | UploadOk fileId name bytes path =>
      st' = st
      /\ In (filename file) (files st)
      /\ In (toLowerCase (extname (join receiptStoragePath (filename file))))
           validExtensions
      /\ (inject_Z (Z.of_N (size file)) <= maxSizeMB * inject_Z (1024 * 1024))%Q
      /\ name = filename file /\ bytes = size file
      /\ path = "/receipt/" +:+ fileId
  | UploadError status reason =>
      if String.eqb reason "invalid-file" then
        status = 400
        /\ ~ In (filename file) (files st')
        /\ (forall g, g <> filename file -> In g (files st') <-> In g (files st))
      else st' = st
  end.
Proof.
  unfold ReceiptUpload.handle_upload.
  destruct (needsBootstrap st); [now intros [= <- <-]|].
  destruct (validate _ _ _) as [|[| |]] eqn:Hv.
  - intros [= <- <-].
    apply validate_Valid in Hv as (Hp & Hs & He).
    apply existsb_eqb_In in Hp. repeat split; assumption.
  - now intros [= <- <-].
  - intros [= <- <-]. simpl. split; [reflexivity|]. split.
    + intros [_ H]%List.filter_In. now rewrite String.eqb_refl in H.
    + intros g Hg. rewrite List.filter_In. split; [tauto|].
      intros H. split; [exact H|]. apply negb_true_iff. now apply String.eqb_neq.
  - intros [= <- <-]. simpl. split; [reflexivity|]. split.
    + intros [_ H]%List.filter_In. now rewrite String.eqb_refl in H.
    + intros g Hg. rewrite List.filter_In. split; [tauto|].
      intros H. split; [exact H|]. apply negb_true_iff. now apply String.eqb_neq.
Qed.
End WithConfig.

Lemma validated_file_mime_witness :
  getMimeType (ascii_toLowerCase (extname "/data/receipts/scan.JPG"))
  = contentTypeFor (ascii_toLowerCase (extname "/data/receipts/scan.JPG"))
  /\ startsWith (contentTypeFor (ascii_toLowerCase (extname "/data/receipts/scan.JPG")))
       "image/" = true
  /\ fileFilter (contentTypeFor (ascii_toLowerCase (extname "/data/receipts/scan.JPG")))
     = true
  /\ contentTypeFor (ascii_toLowerCase (extname "/data/receipts/scan.JPG"))
     <> "application/octet-stream".
Proof.
  apply (validated_file_mime ascii_toLowerCase 10%Q true 2097152%N
           "/data/receipts/scan.JPG").
  reflexivity.
Defined.

Lemma upload_outcomes_witness :
  ~ In (filename txt_upload)
      (files (snd (handle_upload ascii_toLowerCase "/data/receipts" 10%Q
                     after_txt_upload (Some txt_upload)))).
Proof.
  exact (proj1 (proj2 (upload_outcomes ascii_toLowerCase "/data/receipts" 10%Q
                         after_txt_upload txt_upload
                         (UploadError 400 "invalid-file") _ eq_refl))).
Defined.

End UploadFacts.

(** ** Storage operations composed *)

Module StorageFacts.
Import Js JsString JsStringFacts NodePath NodePathFacts JoinFacts.
Import ReceiptProcessor ReceiptProcessorFacts ReceiptHandlers ReceiptHandlersFacts.
Import ReceiptUpload UploadFacts ReceiptSeed Spec Samples UploadSamples.

Lemma find_is_some {A} (p : A -> bool) (l : list A) x :
  In x l -> p x = true -> exists y, List.find p l = Some y.
Proof.
  intros Hin Hp. destruct (List.find p l) as [y|] eqn:E; [now exists y|].
  rewrite (List.find_none p l E x Hin) in Hp. discriminate.
Qed.

Lemma find_filter_other (p : string -> bool) (l : list string) f :
  List.find p l <> Some f ->
  List.find p (List.filter (fun g => negb (String.eqb g f)) l) = List.find p l.
Proof.
  induction l as [|x l IH]; simpl; [reflexivity|].
  destruct (String.eqb_spec x f) as [->|Hne]; simpl.
  - destruct (p f); [congruence | exact IH].
  - destruct (p x); [reflexivity | exact IH].
Qed.

Lemma filter_out_length (l : list string) f :
  List.NoDup l -> In f l ->
  (length (List.filter (fun g => negb (String.eqb g f)) l) + 1 = length l)%nat.
Proof.
  induction 1 as [|x l Hx Hnd IH]; simpl; [easy|].
  intros [->|Hin].
  - rewrite String.eqb_refl. simpl.
    replace (List.filter _ l) with l; [lia|].
    symmetry. apply List.forallb_filter_id. apply forallb_forall.
    intros y Hy. apply negb_true_iff, String.eqb_neq. intros ->. contradiction.
  - destruct (String.eqb_spec x f) as [->|Hne]; [contradiction|].
    simpl. rewrite <- (IH Hin). lia.
Qed.

(** The extension that [extname] returns holds exactly one dot, its first
    character. *)
Lemma split_last_dot_none s : split_last_dot s = None -> lacks "." s = true.
Proof.
  induction s as [|c s IH]; simpl; [reflexivity|].
  destruct (split_last_dot s) as [[pre ext]|]; [discriminate|].
  unfold is_dot. destruct (Ascii.eqb c "."); [discriminate|].
  intros _. now apply IH.
Qed.

Lemma split_last_dot_tail s pre ext :
  split_last_dot s = Some (pre, ext) ->
  exists rest, ext = String "." rest /\ lacks "." rest = true.
Proof.
  revert pre ext; induction s as [|c s IH]; intros pre ext; simpl; [discriminate|].
  destruct (split_last_dot s) as [[pre' ext']|] eqn:E.
  - intros [= <- <-]. exact (IH _ _ eq_refl).
  - unfold is_dot. destruct (Ascii.eqb_spec c "."%char) as [->|]; [|discriminate].
    intros [= <- <-]. exists s. split; [reflexivity|]. now apply split_last_dot_none.
Qed.

Lemma extname_tail p :
  extname p = EmptyString
  \/ exists rest, extname p = String "." rest /\ lacks "." rest = true.
Proof.
  unfold extname.
  destruct (split_last_dot (last_component p)) as [[pre ext]|] eqn:E; [|now left].
  destruct (_ || _); [now left|]. right. exact (split_last_dot_tail _ _ _ E).
Qed.

(** A text with a single dot splits around it in one way only. *)
Lemma split_at_only_dot a b x y :
  lacks "." a = true -> lacks "." b = true ->
  a +:+ String "." b = x +:+ String "." y -> x = a /\ y = b.
Proof.
  revert x; induction a as [|c a IH]; intros x Ha Hb H.
  - destruct x as [|d x]; simpl in H.
    + injection H as ->. easy.
    + injection H as <- ->. rewrite lacks_app in Hb. simpl in Hb.
      now rewrite andb_false_r in Hb.
  - simpl in Ha. apply andb_true_iff in Ha as [Hc Ha].
    destruct x as [|d x]; simpl in H.
    + injection H as -> _. discriminate.
    + injection H as <- H. destruct (IH x Ha Hb H) as [-> ->]. easy.
Qed.

Lemma pattern_before_dot l fileId r :
  l +:+ ("_" +:+ fileId +:+ ".") +:+ r = (l +:+ "_" +:+ fileId) +:+ String "." r.
Proof.
  induction l as [|c l IH]; simpl in *; [|now rewrite IH].
  f_equal. now rewrite string_app_assoc.
Qed.

Lemma process_match_lookup fileId f :
  no_slash f = true ->
  lacks "." (fileId_of f) = true ->
  matches_process fileId f = true ->
  matches_lookup fileId f = true.
Proof.
  intros Hf Hstem Hproc.
  pose proof (basename_extname f Hf) as Hsplit. fold (fileId_of f) in Hsplit.
  apply matches_lookup_spec.
  destruct (extname_tail f) as [He|(rest & He & Hrest)].
  - exfalso. rewrite He, string_app_nil_r in Hsplit.
    apply matches_process_spec in Hproc.
    assert (Hdot : lacks "." f = false).
    { destruct Hproc as [(r & ->)|(l & r & ->)];
        rewrite ?lacks_app; simpl; rewrite ?lacks_app; simpl;
        now rewrite ?andb_false_r. }
    rewrite Hsplit in Hdot. congruence.
  - rewrite He in Hsplit.
    apply matches_process_spec in Hproc as [(r & Hr)|(l & r & Hr)].
    + left. rewrite Hsplit in Hr. rewrite string_app_assoc in Hr. simpl in Hr.
      now destruct (split_at_only_dot _ _ _ _ Hstem Hrest Hr) as [-> _].
    + right. rewrite Hsplit in Hr.
      rewrite (pattern_before_dot l fileId r) in Hr.
      destruct (split_at_only_dot _ _ _ _ Hstem Hrest Hr) as [Hx _].
      exists l, EmptyString. rewrite string_app_nil_r. simpl in Hx. now rewrite <- Hx.
Qed.

(** For names whose part before the extension has no dot, a file that
    POST /process takes for a fileId is also one that GET and DELETE take
    for it. *)
Theorem process_match_is_lookup_match fileId f :
  no_slash f = true ->
  lacks "." (fileId_of f) = true ->
  matches_process fileId f = true ->
  matches_lookup fileId f = true.
Proof.
  exact (process_match_lookup fileId f).
Qed.

Lemma process_match_is_lookup_match_witness :
  matches_lookup "1b9d6bcd" anon_jpg = true.
Proof.
  apply (process_match_is_lookup_match "1b9d6bcd" anon_jpg); reflexivity.
Defined.

Lemma lacks_dot_extension ext : startsWith ext "." = true -> lacks "." ext = false.
Proof.
  intros H. apply startsWith_spec in H as [r ->]. reflexivity.
Qed.

(** A fileId followed by an extension matches no name whose part before
    the extension is free of dots. *)
Lemma dotted_id_no_match fileId extension f :
  startsWith extension "." = true ->
  lacks "." (fileId_of f) = true ->
  matches_lookup (fileId +:+ extension) f = false.
Proof.
  intros Hext Hstem. apply lacks_dot_extension in Hext.
  destruct (matches_lookup (fileId +:+ extension) f) eqn:E; [|reflexivity].
  apply matches_lookup_spec in E as [Heq|(l & r & Heq)]; rewrite Heq in Hstem.
  - rewrite lacks_app, Hext, andb_false_r in Hstem. discriminate.
  - repeat (rewrite lacks_app in Hstem; simpl in Hstem).
    rewrite Hext in Hstem. simpl in Hstem.
    rewrite ?andb_false_r in Hstem. discriminate.
Qed.

Section WithServer.
Variable toLowerCase : string -> string.
Variable JSON_parse : string -> option JsValue.
Variable today : string.
Variable receiptStoragePath : string.
Variable apiKey : option string.
Variable maxSizeMB : Q.
Hypothesis toLowerCase_empty : toLowerCase EmptyString = EmptyString.

#[local] Abbreviation get := (handle_get toLowerCase receiptStoragePath).
#[local] Abbreviation process := (handle_process JSON_parse today apiKey).
#[local] Abbreviation upload := (handle_upload toLowerCase receiptStoragePath maxSizeMB).

(** Store, then use: with the fileId that a successful upload returns,
    GET serves a stored file, DELETE removes one and POST /process gets as
    far as the extraction; when no other stored name matches the fileId,
    GET serves the uploaded file itself, with the Content-Type that
    [getMimeType] gives for its extension. *)
Theorem upload_then_use st st' file fileId name bytes path :
  no_slash (filename file) = true ->
  filename file <> EmptyString ->
  upload st (Some file) = (UploadOk fileId name bytes path, st') ->
  (exists f,
     matches_lookup fileId f = true
     /\ get st' fileId
        = FileResponse (join receiptStoragePath f)
            (contentTypeFor (toLowerCase (extname (join receiptStoragePath f))))
            "private, max-age=86400"
     /\ handle_delete st' fileId = (DeleteResponse, unlinkSync st' f))
  /\ (forall categories call,
        exists g,
          matches_process fileId g = true
          /\ process st' fileId (Some categories) call
             = match processReceipt JSON_parse today apiKey true call with
               | inl _ => ErrorResponse 500 "processing-failed"
               | inr result =>
                   ProcessResponse result ("/receipt/" +:+ fileId) fileId g
                     (extname g)
               end)
  /\ ((forall g, In g (files st') -> matches_lookup fileId g = true ->
                 g = filename file) ->
      get st' fileId
      = FileResponse (join receiptStoragePath (filename file))
          (getMimeType (toLowerCase (extname (filename file))))
          "private, max-age=86400").
Proof.
  intros Hns Hne Hup.
  assert (Hready : needsBootstrap st = false).
  { unfold ReceiptUpload.handle_upload in Hup.
    destruct (needsBootstrap st); [discriminate | reflexivity]. }
  assert (Hid : fileId = fileId_of (filename file)).
  { unfold ReceiptUpload.handle_upload in Hup. rewrite Hready in Hup.
    destruct (validateReceiptImage _ _ _ _ _) as [|[| |]]; try discriminate.
    injection Hup as <- _ _ _ _. now apply fileId_of_join. }
  pose proof (upload_ok_inv _ _ _ _ _ _ _ _ _ _ Hup) as (-> & Hin & Hext).
  rewrite (extname_join _ _ Hns Hne) in Hext.
  assert (He : extname (filename file) <> EmptyString).
  { intros E. rewrite E, toLowerCase_empty in Hext.
    repeat (destruct Hext as [Hext|Hext]; [discriminate|]). exact Hext. }
  destruct (exact_name_matches fileId (filename file) Hns (eq_sym Hid) He)
    as [Hl Hp].
  assert (Hnid : fileId <> EmptyString).
  { rewrite Hid. now apply fileId_of_nonempty. }
  split; [|split].
  - destruct (find_is_some _ _ _ Hin Hl) as [f Hf].
    exists f. split; [exact (proj2 (List.find_some _ _ Hf))|]. split.
    + now rewrite (handle_get_resolution _ _ _ _ Hready Hnid), Hf.
    + unfold handle_delete. rewrite Hready, Hf.
      apply String.eqb_neq in Hnid. now rewrite Hnid.
  - intros categories call. destruct (find_is_some _ _ _ Hin Hp) as [g Hg].
    exists g. split; [exact (proj2 (List.find_some _ _ Hg))|].
    unfold handle_process. rewrite Hready, Hg.
    apply String.eqb_neq in Hnid. rewrite Hnid.
    now rewrite (find_existsSync _ _ _ Hg).
  - intros Honly. rewrite (handle_get_resolution _ _ _ _ Hready Hnid).
    destruct (find_is_some _ _ _ Hin Hl) as [f Hf]. rewrite Hf.
    destruct (List.find_some _ _ Hf) as [Hfin Hfm].
    rewrite (Honly f Hfin Hfm), (extname_join _ _ Hns Hne).
    now rewrite (proj1 (valid_extension_mime _ Hext)).
Qed.

(** The link written into the notes,
    [serverUrl + '/receipt/' + fileId + extension], addresses the id
    [fileId + extension]; for that id GET answers file-not-found as long
    as the stored names have no dot before their extension. *)
Theorem notes_link_not_served st serverUrl fileId extension :
  needsBootstrap st = false ->
  startsWith extension "." = true ->
  Forall (fun f => lacks "." (fileId_of f) = true) (files st) ->
  fullReceiptUrl serverUrl ("/receipt/" +:+ fileId) extension
  = getReceiptUrl (fileId +:+ extension) serverUrl
  /\ get st (fileId +:+ extension) = ErrorResponse 404 "file-not-found".
Proof.
  intros Hready Hext Hall. split.
  - unfold fullReceiptUrl, getReceiptUrl.
    change ("/receipt/" +:+ fileId +:+ extension)
      with ("/receipt/" +:+ (fileId +:+ extension)).
    change (("/receipt/" +:+ fileId) +:+ extension)
      with ("/receipt/" +:+ (fileId +:+ extension)).
    reflexivity.
  - assert (Hnid : fileId +:+ extension <> EmptyString).
    { apply startsWith_spec in Hext as [r ->]. destruct fileId; discriminate. }
    rewrite (handle_get_resolution _ _ _ _ Hready Hnid).
    destruct (List.find _ (files st)) as [f|] eqn:Hf; [|reflexivity].
    apply List.find_some in Hf as [Hin Hm].
    rewrite List.Forall_forall in Hall.
    now rewrite (dotted_id_no_match fileId extension f Hext (Hall f Hin)) in Hm.
Qed.

(** DELETE never touches a name that does not match the fileId, removes
    nothing unless it answers success, and leaves the readiness flag
    alone; with distinct names a successful DELETE makes the directory
    exactly one entry shorter. *)
Theorem delete_frame st fileId resp st' :
  handle_delete st fileId = (resp, st') ->
  needsBootstrap st' = needsBootstrap st
  /\ (resp <> DeleteResponse -> st' = st)
  /\ (forall g, In g (files st') -> In g (files st))
  /\ (forall g, In g (files st) -> matches_lookup fileId g = false ->
                In g (files st'))
  /\ (resp = DeleteResponse -> List.NoDup (files st) ->
      (length (files st') + 1 = length (files st))%nat).
Proof.
  unfold handle_delete.
  destruct (needsBootstrap st) eqn:Hb; [intros [= <- <-]; now repeat split|].
  destruct (String.eqb fileId EmptyString); [intros [= <- <-]; now repeat split|].
  destruct (List.find _ (files st)) as [f|] eqn:Hf;
    [|intros [= <- <-]; now repeat split].
  apply List.find_some in Hf as [Hin Hm].
  intros [= <- <-]. simpl. repeat split; try easy.
  - intros g [Hg _]%List.filter_In. exact Hg.
  - intros g Hg Hno. apply List.filter_In. split; [exact Hg|].
    apply negb_true_iff, String.eqb_neq. intros ->. congruence.
  - intros _ Hnd. now apply filter_out_length.
Qed.

(** Operations on another fileId are not disturbed: after a successful
    DELETE for one fileId, GET for any fileId whose first match was a
    different file (or none) answers as before. *)
Theorem delete_leaves_other_ids st st' a b :
  handle_delete st a = (DeleteResponse, st') ->
  List.find (matches_lookup b) (files st) <> List.find (matches_lookup a) (files st) ->
  get st' b = get st b.
Proof.
  unfold handle_delete.
  destruct (needsBootstrap st) eqn:Hready; [discriminate|].
  destruct (String.eqb a EmptyString); [discriminate|].
  destruct (List.find (matches_lookup a) (files st)) as [f|] eqn:Hf; [|discriminate].
  intros [= <-] Hdiff.
  destruct (String.eqb_spec b EmptyString) as [->|Hb].
  - unfold handle_get. simpl. now rewrite Hready.
  - rewrite !handle_get_resolution by assumption. simpl.
    now rewrite (find_filter_other _ _ f Hdiff).
Qed.

(** After a successful DELETE for a fileId that matched one stored file
    only, a second DELETE and a POST /process for it both answer
    file-not-found (names without a dot before the extension). *)
Theorem delete_then_delete_or_process st st' fileId :
  Forall (fun f => no_slash f = true /\ lacks "." (fileId_of f) = true) (files st) ->
  (forall g h, In g (files st) -> In h (files st) ->
     matches_lookup fileId g = true -> matches_lookup fileId h = true -> g = h) ->
  handle_delete st fileId = (DeleteResponse, st') ->
  handle_delete st' fileId = (ErrorResponse 404 "file-not-found", st')
  /\ forall categories call,
       process st' fileId (Some categories) call
       = ErrorResponse 404 "file-not-found".
Proof.
  intros Hnames Huniq Hdel. unfold handle_delete in Hdel.
  destruct (needsBootstrap st) eqn:Hready; [discriminate|].
  destruct (String.eqb fileId EmptyString) eqn:Hid; [discriminate|].
  destruct (List.find _ (files st)) as [f|] eqn:Hf; [|discriminate].
  injection Hdel as <-.
  pose proof (find_after_unlink fileId st f Hf Huniq) as Hgone.
  split.
  - unfold handle_delete. simpl. rewrite Hready, Hid.
    simpl in Hgone. now rewrite Hgone.
  - intros categories call. unfold handle_process. simpl. rewrite Hready, Hid.
    destruct (List.find (matches_process fileId) _) as [g|] eqn:Hg; [|reflexivity].
    exfalso. apply List.find_some in Hg as [Hgin Hgm].
    pose proof Hgin as Hgin'. apply List.filter_In in Hgin' as [Hgst _].
    rewrite List.Forall_forall in Hnames. destruct (Hnames g Hgst) as [Hns Hdot].
    pose proof (process_match_lookup fileId g Hns Hdot Hgm) as Hlm.
    simpl in Hgone.
    now rewrite (List.find_none _ _ Hgone g Hgin) in Hlm.
Qed.
End WithServer.

Lemma upload_then_use_witness :
  handle_get ascii_toLowerCase "/data/receipts" two_uploads
    "1700000000000_anonymous_1b9d6bcd"
  = FileResponse (join "/data/receipts" anon_jpg) "image/jpeg" "private, max-age=86400".
Proof.
  refine (proj2 (proj2 (upload_then_use ascii_toLowerCase Json.JSON_parse
                          "2024-06-01" "/data/receipts" (Some "sk-test") 10%Q eq_refl
                          two_uploads two_uploads jpg_upload
                          "1700000000000_anonymous_1b9d6bcd" anon_jpg 2097152%N
                          "/receipt/1700000000000_anonymous_1b9d6bcd" _ _ _)) _).
  - reflexivity.
  - discriminate.
  - reflexivity.
  - intros g [<-|[<-|[]]] H; [reflexivity|]. vm_compute in H. discriminate.
Defined.

Lemma notes_link_not_served_witness :
  handle_get ascii_toLowerCase "/data/receipts" two_uploads
    ("1700000000000_anonymous_1b9d6bcd" +:+ ".jpg")
  = ErrorResponse 404 "file-not-found".
Proof.
  refine (proj2 (notes_link_not_served ascii_toLowerCase "/data/receipts"
                   two_uploads "https://sync.example"
                   "1700000000000_anonymous_1b9d6bcd" ".jpg" _ _ _)).
  - reflexivity.
  - reflexivity.
  - repeat constructor.
Defined.

Lemma delete_frame_witness :
  (length (files (snd (handle_delete two_uploads "7c4a8d09"))) + 1
   = length (files two_uploads))%nat.
Proof.
  refine (proj2 (proj2 (proj2 (proj2
            (delete_frame two_uploads "7c4a8d09" DeleteResponse _ eq_refl))))
            eq_refl _).
  repeat constructor; simpl; intuition discriminate.
Defined.

Lemma delete_leaves_other_ids_witness :
  handle_get ascii_toLowerCase "/data/receipts"
    (snd (handle_delete two_uploads "7c4a8d09")) "1b9d6bcd"
  = handle_get ascii_toLowerCase "/data/receipts" two_uploads "1b9d6bcd".
Proof.
  apply (delete_leaves_other_ids ascii_toLowerCase "/data/receipts" two_uploads
           _ "7c4a8d09" "1b9d6bcd").
  - reflexivity.
  - vm_compute. discriminate.
Defined.

Lemma delete_then_delete_or_process_witness :
  handle_delete (snd (handle_delete two_uploads "7c4a8d09")) "7c4a8d09"
  = (ErrorResponse 404 "file-not-found", snd (handle_delete two_uploads "7c4a8d09")).
Proof.
  refine (proj1 (delete_then_delete_or_process Json.JSON_parse "2024-06-01"
                   (Some "sk-test") two_uploads _ "7c4a8d09" _ _ eq_refl)).
  - repeat constructor.
  - intros g h [<-|[<-|[]]] [<-|[<-|[]]] Hg Hh; try reflexivity;
      vm_compute in Hg, Hh; discriminate.
Defined.

End StorageFacts.

(** ** Review screen: seeding, editing and commit composed *)

Module ReviewFlowFacts.
Import Js JsString ReceiptProcessor ReceiptReview ReviewSpec ReceiptReviewFacts.
Import ReceiptSeed ReviewFlowSpec ReviewSamples Samples.

Lemma prop_insert (e : EditableExpense) f v k :
  prop (<[f := v]> e) k = if decide (f = k) then v else prop e k.
Proof. unfold prop. rewrite lookup_insert. now case_decide. Qed.

Lemma seed_id a i e :
  prop (seedExpense a i e) "id" = JStr ("expense-" +:+ pretty i).
Proof. reflexivity. Qed.

Lemma seed_account a i e : prop (seedExpense a i e) "account" = default_account a.
Proof. reflexivity. Qed.

Lemma seed_payee a i e : prop (seedExpense a i e) "payee" = JUndefined.
Proof. reflexivity. Qed.

Lemma seed_carries a i e :
  prop (seedExpense a i e) "amount" = amount e
  /\ prop (seedExpense a i e) "merchant" = merchant e
  /\ prop (seedExpense a i e) "date" = date e
  /\ prop (seedExpense a i e) "categoryId" = categoryId e
  /\ prop (seedExpense a i e) "categoryName" = categoryName e
  /\ prop (seedExpense a i e) "note" = note e
  /\ prop (seedExpense a i e) "confidence" = confidence e.
Proof. repeat split; reflexivity. Qed.

Lemma seed_ids_differ (i j : nat) :
  i <> j -> String.eqb ("expense-" +:+ pretty j) ("expense-" +:+ pretty i) = false.
Proof.
  intros Hne. apply String.eqb_neq. intros H. simpl in H.
  injection H as H. apply pretty_nat_inj in H. congruence.
Qed.

Lemma seed_matches a (i : nat) e :
  strict_eq_string (prop (seedExpense a i e) "id") ("expense-" +:+ pretty i) = true.
Proof. rewrite seed_id. apply String.eqb_refl. Qed.

Lemma seed_other a (i j : nat) e :
  i <> j ->
  strict_eq_string (prop (seedExpense a j e) "id") ("expense-" +:+ pretty i) = false.
Proof. intros Hne. rewrite seed_id. now apply seed_ids_differ. Qed.

(** The ids handed out by [processReceiptFile] are pairwise distinct:
    an update addressed to [expense-i] rewrites the i-th seeded expense and
    nothing else, whatever the field. *)
Theorem seeded_update_hits_one accountId (expenses : list ReceiptExpense) i e
    field value :
  expenses !! i = Some e ->
  updateExpense ("expense-" +:+ pretty i) field value (seedExpenses accountId expenses)
  = <[i := <[field := value]> (seedExpense accountId i e)]>
      (seedExpenses accountId expenses).
Proof.
  intros Hi. apply list_eq. intros j. unfold updateExpense, seedExpenses.
  rewrite list_lookup_fmap, list_lookup_imap.
  destruct (decide (i = j)) as [<-|Hne].
  - rewrite list_lookup_insert_eq.
    + rewrite Hi. cbv [fmap option_fmap option_map]. now rewrite seed_matches.
    + rewrite length_imap. now apply lookup_lt_Some in Hi.
  - rewrite list_lookup_insert_ne by assumption. rewrite list_lookup_imap.
    destruct (expenses !! j) as [e'|]; [|reflexivity].
    cbv [fmap option_fmap option_map]. now rewrite (seed_other _ i j e' Hne).
Qed.

Lemma seeded_update_hits_one_witness :
  updateExpense ("expense-" +:+ pretty 1) "account" (JStr "acc2")
    (seedExpenses None (expenses groceries_result))
  = <[1 := <["account" := JStr "acc2"]>
             (seedExpense None 1 (Spec.normalized "2024-06-01" groceries_parsed
                                    (JObj {["note" := JStr "bag"]})))]>
      (seedExpenses None (expenses groceries_result)).
Proof.
  apply (seeded_update_hits_one None (expenses groceries_result) 1).
  vm_compute. reflexivity.
Defined.

(** Two edits of one expense: on the same field the later value stands, on
    different fields the order does not matter (any field but [id], which
    is what addresses the expense). *)
Theorem updates_compose id f1 f2 v1 v2 (prev : list EditableExpense) :
  f1 <> "id" -> f2 <> "id" ->
  updateExpense id f1 v2 (updateExpense id f1 v1 prev) = updateExpense id f1 v2 prev
  /\ (f1 <> f2 ->
      updateExpense id f1 v1 (updateExpense id f2 v2 prev)
      = updateExpense id f2 v2 (updateExpense id f1 v1 prev)).
Proof.
  intros H1 H2. unfold updateExpense. rewrite <- !list_fmap_compose. split.
  - apply list_fmap_ext. intros _ e _. simpl.
    destruct (strict_eq_string (prop e "id") id) eqn:E; [|now rewrite E].
    rewrite prop_insert. case_decide; [contradiction|].
    now rewrite E, insert_insert_eq.
  - intros Hne. apply list_fmap_ext. intros _ e _. simpl.
    destruct (strict_eq_string (prop e "id") id) eqn:E.
    + rewrite !prop_insert. repeat case_decide; try contradiction.
      rewrite E. now apply insert_insert_ne.
    + now rewrite E.
Qed.

Lemma updates_compose_witness :
  updateExpense "expense-0" "categoryId" (JStr "c2")
    (updateExpense "expense-0" "categoryName" (JStr "Household") [groceries])
  = updateExpense "expense-0" "categoryName" (JStr "Household")
      (updateExpense "expense-0" "categoryId" (JStr "c2") [groceries]).
Proof.
  apply (proj2 (updates_compose "expense-0" "categoryId" "categoryName"
                  (JStr "c2") (JStr "Household") [groceries]
                  ltac:(discriminate) ltac:(discriminate))).
  discriminate.
Defined.

Section WithBackend.
Variable toLowerCase : string -> string.
Variable newPayeeId : nat -> string.
Variable tempId : nat -> string.

#[local] Abbreviation resolvePayee := (resolvePayee toLowerCase newPayeeId).
#[local] Abbreviation save_loop := (save_loop toLowerCase newPayeeId tempId).
#[local] Abbreviation handleSave := (handleSave toLowerCase newPayeeId tempId).

Lemma resolvePayee_same payees (e e' : EditableExpense) w :
  same_for_save e e' -> resolvePayee payees e w = resolvePayee payees e' w.
Proof.
  intros H. unfold ReceiptReview.resolvePayee.
  rewrite (H "payee"), (H "merchant") by (simpl; tauto). reflexivity.
Qed.

Lemma make_transaction_same index url (e e' : EditableExpense) p :
  same_for_save e e' ->
  make_transaction tempId index url e p = make_transaction tempId index url e' p.
Proof.
  intros H. unfold make_transaction.
  rewrite (H "account"), (H "date"), (H "amount"), (H "categoryId")
    by (simpl; tauto).
  reflexivity.
Qed.

Lemma save_loop_same payees url es es' :
  Forall2 same_for_save es es' ->
  forall index acc w,
    save_loop payees url index es acc w = save_loop payees url index es' acc w.
Proof.
  induction 1 as [|e e' es es' He _ IH]; intros index acc w; [reflexivity|].
  simpl. rewrite (He "account") by (simpl; tauto).
  destruct (negb _); [reflexivity|].
  rewrite (resolvePayee_same payees e e' w He).
  destruct (resolvePayee payees e' w) as [[err|p] w1]; [reflexivity|].
  now rewrite (make_transaction_same index url e e' p He), IH.
Qed.

(** Commit reads account, payee, merchant, date, amount and categoryId
    only: an edit of any other property (confidence, note, categoryName,
    or one the interface does not know) changes nothing of what
    [handleSave] does. *)
Theorem save_ignores_other_fields payees accountId url id field value expenses w :
  ~ In field read_by_save ->
  handleSave payees accountId url (updateExpense id field value expenses) w
  = handleSave payees accountId url expenses w.
Proof.
  intros Hfield.
  assert (Hsame : Forall2 same_for_save (updateExpense id field value expenses)
                    expenses).
  { unfold updateExpense. apply Forall2_fmap_l, Forall_Forall2_diag, Forall_forall.
    intros e _. unfold compose.
    destruct (strict_eq_string (prop e "id") id); [|now intros k _].
    intros k Hk. rewrite prop_insert. case_decide; [|reflexivity].
    subst. contradiction. }
  unfold ReceiptReview.handleSave.
  rewrite (save_loop_same payees url _ _ Hsame 0 [] w).
  destruct (ReceiptReview.save_loop _ _ _ _ _ _ _ _ _) as [[err|txs] w'];
    [reflexivity|].
  replace (match updateExpense id field value expenses with
           | [] => JUndefined
           | e :: _ => prop e "account"
           end)
    with (match expenses with
          | [] => JUndefined
          | e :: _ => prop e "account"
          end); [reflexivity|].
  destruct Hsame as [|e e' ? ? He _]; [reflexivity|].
  symmetry. apply He. simpl. tauto.
Qed.

Lemma resolvePayee_effect payees (e : EditableExpense) w r w' :
  resolvePayee payees e w = (r, w') ->
  batches w' = batches w
  /\ exists added,
       created_payees w' = created_payees w ++ added /\ (length added <= 1)%nat.
Proof.
  assert (Hnone : forall l : list (string * JsValue),
             exists added, l = l ++ added /\ (length added <= 1)%nat).
  { intros l. exists []. rewrite app_nil_r. split; [reflexivity | simpl; lia]. }
  unfold ReceiptReview.resolvePayee.
  destruct (negb _ && _).
  - destruct (find_payee toLowerCase payees (prop e "merchant")) as [err|[p|]];
      intros [= _ <-]; simpl; (split; [reflexivity|]); try apply Hnone.
    eexists. split; [reflexivity|]. simpl. lia.
  - intros [= _ <-]. split; [reflexivity|]. apply Hnone.
Qed.

Lemma save_loop_effects payees url es :
  forall index acc w r w',
    save_loop payees url index es acc w = (r, w') ->
    batches w' = batches w
    /\ (exists added,
          created_payees w' = created_payees w ++ added
          /\ (length added <= length es)%nat)
    /\ (forall txs, r = inr txs -> length txs = (length acc + length es)%nat).
Proof.
  induction es as [|e es IH]; intros index acc w r w'; simpl.
  - intros [= <- <-]. split; [reflexivity|]. split.
    + exists []. rewrite app_nil_r. split; [reflexivity | simpl; lia].
    + intros txs [= <-]. lia.
  - destruct (negb _).
    + intros [= <- <-]. split; [reflexivity|]. split; [|discriminate].
      exists []. rewrite app_nil_r. split; [reflexivity | simpl; lia].
    + destruct (resolvePayee payees e w) as [[err|p] w1] eqn:Hres;
        destruct (resolvePayee_effect _ _ _ _ _ Hres) as (Hb & added & Hc & Hlen).
      * intros [= <- <-]. split; [exact Hb|]. split; [|discriminate].
        exists added. split; [exact Hc | simpl; lia].
      * intros Hloop.
        destruct (IH _ _ _ _ _ Hloop) as (Hb' & (more & Hc' & Hlen') & Htx).
        split; [congruence|]. split.
        -- exists (added ++ more). rewrite Hc', Hc, <- app_assoc.
           split; [reflexivity|]. rewrite length_app. simpl. lia.
        -- intros txs Hr. rewrite (Htx txs Hr), length_app. simpl. lia.
Qed.

(** What a commit can do to the budget, whatever the expenses: payees
    are only ever added, at most one per expense; a rejected commit sends
    no batch; an accepted one sends exactly one batch, holding one
    transaction per expense. *)
Theorem handleSave_effects payees accountId url expenses w outcome w' :
  handleSave payees accountId url expenses w = (outcome, w') ->
  (exists added,
     created_payees w' = created_payees w ++ added
     /\ (length added <= length expenses)%nat)
  /\ match outcome with
     | SaveFailed _ => batches w' = batches w
     | NavigateAccount _ | NavigateBack =>
         exists txs,
           batches w' = batches w ++ [txs] /\ length txs = length expenses
     end.
Proof.
  unfold ReceiptReview.handleSave.
  destruct (ReceiptReview.save_loop _ _ _ _ _ _ _ _ _) as [[err|txs] w1] eqn:Hloop;
    destruct (save_loop_effects _ _ _ _ _ _ _ _ Hloop) as (Hb & Hadded & Htx).
  - intros [= <- <-]. split; assumption.
  - destruct (truthy _); intros [= <- <-]; simpl;
      (split; [exact Hadded|]); exists txs; rewrite Hb;
      (split; [reflexivity|]); now rewrite (Htx txs eq_refl).
Qed.

Lemma forallb_false_Exists (es : list EditableExpense) :
  forallb (fun e => truthy (prop e "account")) es = false ->
  Exists lacks_account es.
Proof.
  induction es as [|e es IH]; simpl; [discriminate|].
  destruct (truthy (prop e "account")) eqn:E; simpl.
  - intros H. right. now apply IH.
  - intros _. now left.
Qed.

(** The Save button and the commit agree: for a non-empty list of
    expenses (merchants being strings), [canSave] holds exactly when
    [handleSave] goes through to the batch and navigates away. *)
Theorem canSave_iff_commit_accepted payees accountId url expenses w :
  expenses <> [] ->
  Forall merchant_typed expenses ->
  canSave expenses = true
  <-> is_navigation (fst (handleSave payees accountId url expenses w)).
Proof.
  intros Hne Hty. unfold ReceiptReview.handleSave. split.
  - intros Hcan.
    destruct (canSave_no_missing_account toLowerCase newPayeeId tempId
                payees url expenses w Hcan Hty) as (txs & w' & Hloop & _).
    rewrite Hloop. now destruct (truthy _).
  - intros Hnav. unfold canSave.
    destruct expenses as [|e es]; [contradiction|].
    destruct (forallb _ (e :: es)) eqn:Hall; [reflexivity|].
    apply forallb_false_Exists in Hall.
    destruct (save_loop_missing_account toLowerCase newPayeeId tempId
                payees url (e :: es) 0 [] w Hall) as (err & w' & Hloop & _).
    rewrite Hloop in Hnav. contradiction.
Qed.

Lemma seeded_typed accountId (expenses : list ReceiptExpense) :
  Forall merchant_is_string expenses ->
  Forall merchant_typed (seedExpenses accountId expenses).
Proof.
  intros H. apply Forall_forall. intros x Hx.
  apply elem_of_lookup_imap_1 in Hx as (i & e & -> & Hi).
  rewrite Forall_forall in H. apply H. eapply list_elem_of_lookup_2. exact Hi.
Qed.

(** From extraction to ledger: when the screen was opened for an account
    and the extracted merchants are strings, committing the seeded
    expenses as they are sends one batch with one transaction per
    extracted expense, each on that account, carrying the extracted
    date, amount and category, linked to the receipt and not cleared,
    and then navigates to the account. *)
Theorem seed_then_save payees a url (expenses : list ReceiptExpense) w :
  a <> EmptyString ->
  Forall merchant_is_string expenses ->
  exists txs w',
    handleSave payees (Some a) url (seedExpenses (Some a) expenses) w
    = (NavigateAccount (JStr a), w')
    /\ batches w' = batches w ++ [txs]
    /\ length txs = length expenses
    /\ forall i e,
         expenses !! i = Some e ->
         exists t,
           txs !! i = Some t
           /\ t_account t = JStr a
           /\ t_date t = date e
           /\ t_amount t = amount e
           /\ t_category t = categoryId e
           /\ t_notes t = url
           /\ t_cleared t = false.
Proof.
  intros Ha Hty.
  assert (Hda : default_account (Some a) = JStr a) by (destruct a; easy).
  assert (Hta : truthy (JStr a) = true).
  { simpl. apply negb_true_iff. now apply String.eqb_neq. }
  assert (Hacc : Forall (fun e => truthy (prop e "account") = true)
                   (seedExpenses (Some a) expenses)).
  { apply Forall_forall. intros x Hx.
    apply elem_of_lookup_imap_1 in Hx as (i & e & -> & Hi).
    now rewrite seed_account, Hda. }
  destruct (save_loop_all_accounts toLowerCase newPayeeId tempId payees url
              (seedExpenses (Some a) expenses) 0 [] w
              (seeded_typed (Some a) expenses Hty) Hacc)
    as (txs & w' & Hloop & Hb & Hlen & Hall).
  exists txs, (send_batch_update txs w').
  unfold ReceiptReview.handleSave. rewrite Hloop. simpl.
  assert (Hor : forall x, JStr a ||| x = JStr a)
    by (intros x; unfold js_or; now rewrite Hta).
  rewrite !Hor, Hta.
  split; [reflexivity|]. split; [simpl; now rewrite Hb|].
  unfold seedExpenses in Hlen. rewrite length_imap in Hlen.
  split; [exact Hlen|].
  intros i e Hi.
  assert (Hsi : seedExpenses (Some a) expenses !! i
                = Some (seedExpense (Some a) i e)).
  { unfold seedExpenses. now rewrite list_lookup_imap, Hi. }
  destruct (Hall i _ Hsi) as (t & _ & _ & Ht & _ & Heq).
  exists t. split; [exact Ht|]. rewrite Heq. simpl.
  rewrite seed_account, Hda.
  destruct (seed_carries (Some a) i e) as (-> & _ & -> & -> & _).
  now repeat split.
Qed.

Lemma find_none_of_names payees m :
  (forall p, In p payees -> toLowerCase (payee_name p) <> toLowerCase m) ->
  List.find (fun p => String.eqb (toLowerCase (payee_name p)) (toLowerCase m)) payees
  = None.
Proof.
  intros H. destruct (List.find _ payees) as [p|] eqn:E; [|reflexivity].
  apply List.find_some in E as [Hin Heq]. apply String.eqb_eq in Heq.
  now destruct (H p Hin).
Qed.

Lemma save_loop_creates_each payees url m es :
  m <> EmptyString ->
  (forall p, In p payees -> toLowerCase (payee_name p) <> toLowerCase m) ->
  Forall (needs_payee_for m) es ->
  forall index acc w,
    exists txs w',
      save_loop payees url index es acc w = (inr txs, w')
      /\ created_payees w'
         = created_payees w
           ++ imap (fun i _ => (newPayeeId (length (created_payees w) + i), JStr m)) es.
Proof.
  intros Hm Hnone. induction 1 as [|e es (Hacc & Hpay & Hmer) Htail IH];
    intros index acc w; simpl.
  - exists acc, w. now rewrite app_nil_r.
  - rewrite Hacc. simpl.
    rewrite (resolvePayee_lookup toLowerCase newPayeeId payees e m w Hpay Hmer Hm).
    rewrite (find_none_of_names payees m Hnone). simpl.
    match goal with
    | |- context [ReceiptReview.save_loop _ _ _ _ _ _ _ ?acc' ?w1] =>
        destruct (IH (S index) acc' w1) as (txs & w' & Hloop & Hc)
    end.
    exists txs, w'. split; [exact Hloop|]. rewrite Hc. simpl.
    rewrite <- app_assoc. simpl. rewrite Nat.add_0_r. do 2 f_equal.
    apply imap_ext. intros i x Hx. rewrite length_app. simpl.
    do 2 f_equal. lia.
Qed.

(** Payees are looked up in the list the screen was rendered with, which
    a commit does not refresh: expenses that name the same merchant,
    unknown so far, each create a payee of that name, one after the other. *)
Theorem same_new_merchant_created_per_expense payees accountId url m expenses w :
  m <> EmptyString ->
  (forall p, In p payees -> toLowerCase (payee_name p) <> toLowerCase m) ->
  Forall (needs_payee_for m) expenses ->
  created_payees (snd (handleSave payees accountId url expenses w))
  = created_payees w
    ++ imap (fun i _ => (newPayeeId (length (created_payees w) + i), JStr m)) expenses.
Proof.
  intros Hm Hnone Hall.
  destruct (save_loop_creates_each payees url m expenses Hm Hnone Hall 0 [] w)
    as (txs & w' & Hloop & Hc).
  unfold ReceiptReview.handleSave. rewrite Hloop.
  now destruct (truthy _).
Qed.
End WithBackend.

Lemma save_ignores_other_fields_witness :
  handleSave ascii_toLowerCase sample_newPayeeId sample_tempId [coffee_shop]
    None "https://sync.example/receipt/r1.jpg"
    (updateExpense "expense-0" "confidence" (JNum (1 # 10))
       [groceries; coffee_with_account])
    no_backend_calls
  = handleSave ascii_toLowerCase sample_newPayeeId sample_tempId [coffee_shop]
      None "https://sync.example/receipt/r1.jpg"
      [groceries; coffee_with_account] no_backend_calls.
Proof.
  apply (save_ignores_other_fields ascii_toLowerCase sample_newPayeeId sample_tempId).
  simpl. intuition discriminate.
Defined.

Lemma handleSave_effects_witness :
  batches {| created_payees := [("payee-new-0", JStr "Shop")]; batches := [] |}
  = batches no_backend_calls.
Proof.
  exact (proj2 (handleSave_effects ascii_toLowerCase sample_newPayeeId sample_tempId
                  [] None "https://sync.example/receipt/r1.jpg"
                  [groceries; coffee_without_account] no_backend_calls
                  (SaveFailed "All expenses must have an account")
                  {| created_payees := [("payee-new-0", JStr "Shop")];
                     batches := [] |}
                  eq_refl)).
Defined.

Lemma canSave_iff_commit_accepted_witness :
  is_navigation
    (fst (handleSave ascii_toLowerCase sample_newPayeeId sample_tempId [coffee_shop]
            None "https://sync.example/receipt/r1.jpg" [groceries] no_backend_calls)).
Proof.
  apply (proj1 (canSave_iff_commit_accepted ascii_toLowerCase sample_newPayeeId
                  sample_tempId [coffee_shop] None
                  "https://sync.example/receipt/r1.jpg" [groceries] no_backend_calls
                  ltac:(discriminate)
                  ltac:(repeat constructor; eexists; vm_compute; reflexivity))).
  reflexivity.
Defined.

Lemma seed_then_save_witness :
  exists txs w',
    handleSave ascii_toLowerCase sample_newPayeeId sample_tempId [coffee_shop]
      (Some "acc1") "https://sync.example/receipt/r1.jpg"
      (seedExpenses (Some "acc1") (expenses groceries_result)) no_backend_calls
    = (NavigateAccount (JStr "acc1"), w')
    /\ batches w' = batches no_backend_calls ++ [txs]
    /\ length txs = length (expenses groceries_result).
Proof.
  destruct (seed_then_save ascii_toLowerCase sample_newPayeeId sample_tempId
              [coffee_shop] "acc1" "https://sync.example/receipt/r1.jpg"
              (expenses groceries_result) no_backend_calls)
    as (txs & w' & Hsave & Hb & Hlen & _).
  - discriminate.
  - repeat constructor; eexists; vm_compute; reflexivity.
  - now exists txs, w'.
Defined.

Lemma same_new_merchant_created_per_expense_witness :
  created_payees
    (snd (handleSave ascii_toLowerCase sample_newPayeeId sample_tempId [coffee_shop]
            None "https://sync.example/receipt/r1.jpg" [groceries; groceries]
            no_backend_calls))
  = [("payee-new-0", JStr "Shop"); ("payee-new-1", JStr "Shop")].
Proof.
  apply (same_new_merchant_created_per_expense ascii_toLowerCase sample_newPayeeId
           sample_tempId [coffee_shop] None "https://sync.example/receipt/r1.jpg"
           "Shop" [groceries; groceries] no_backend_calls).
  - discriminate.
  - intros p [<-|[]]. vm_compute. discriminate.
  - repeat constructor.
Defined.

End ReviewFlowFacts.

(** ** The names the upload generates *)

Module FilenameFacts.
Import JsString JsStringFacts NodePath NodePathFacts ReceiptHandlers.
Import ReceiptHandlersFacts ReceiptProcessorFacts ReceiptUpload Spec.

Lemma split_last_dot_prefix a s p e :
  split_last_dot s = Some (p, e) -> split_last_dot (a +:+ s) = Some (a +:+ p, e).
Proof.
  intros H. induction a as [|c a IH]; simpl; [exact H|]. now rewrite IH.
Qed.

Lemma split_last_dot_extension ext :
  startsWith ext "." = true -> exists p e, split_last_dot ext = Some (p, e).
Proof.
  intros H. apply startsWith_spec in H as [r ->]. simpl.
  destruct (split_last_dot r) as [[p e]|]; eauto.
Qed.

Lemma string_app_inv_tail a b c d :
  String.length a = String.length b -> a +:+ c = b +:+ d -> a = b.
Proof.
  revert b. induction a as [|x a IH]; intros [|y b]; simpl; try easy.
  intros [= Hlen] [= -> H]. f_equal. now apply IH.
Qed.

(** The stem of a name that ends in an extension: everything before the
    last dot, which lies in the extension. *)
Lemma stem_before_extension q ext :
  no_slash (q +:+ ext) = true ->
  lacks "_" q = false ->
  startsWith ext "." = true ->
  exists p, fileId_of (q +:+ ext) = q +:+ p.
Proof.
  intros Hns Hq Hext.
  destruct (split_last_dot_extension ext Hext) as (p & e & Hpe).
  pose proof (split_last_dot_prefix q ext p e Hpe) as Hsplit.
  destruct (split_last_dot_app _ _ _ Hpe) as [Hsum _].
  assert (He : extname (q +:+ ext) = e).
  { unfold extname. rewrite (last_component_no_slash _ Hns), Hsplit.
    assert (String.eqb (q +:+ p) EmptyString = false) as ->.
    { apply String.eqb_neq. intros E.
      assert (Hl : lacks "_" (q +:+ p) = true) by now rewrite E.
      rewrite lacks_app, Hq in Hl. discriminate. }
    assert (String.eqb (q +:+ ext) ".." = false) as ->.
    { apply String.eqb_neq. intros E.
      assert (Hl : lacks "_" (q +:+ ext) = true) by now rewrite E.
      rewrite lacks_app, Hq in Hl. discriminate. }
    reflexivity. }
  exists p. pose proof (basename_extname _ Hns) as Hname.
  fold (fileId_of (q +:+ ext)) in Hname. rewrite He in Hname.
  rewrite Hsum in Hname at 1. rewrite <- string_app_assoc in Hname.
  symmetry. apply (string_app_inv_tail _ _ e e); [|exact Hname].
  apply (f_equal String.length) in Hname.
  rewrite !string_length_app in Hname. rewrite !string_length_app. lia.
Qed.

(** The names the upload generates answer to more than the fileId the
    upload returns: when the original name has an extension, the stored
    file is found by GET and DELETE under its uuid alone and under the
    uploader's user id alone (so [anonymous] finds an upload of any client
    that is not logged in), and by POST /process under its uuid. *)
Theorem generated_name_resolves timestamp user_id uuid originalname :
  let name := upload_filename timestamp user_id uuid originalname in
  no_slash name = true ->
  extname originalname <> EmptyString ->
  matches_lookup uuid name = true
  /\ matches_lookup (userId_of user_id) name = true
  /\ matches_process uuid name = true.
Proof.
  intros name Hns Hext. subst name. unfold upload_filename in *.
  destruct (extname_is_extension originalname) as [He|He]; [easy|].
  set (ext := extname originalname) in *.
  set (ts := pretty timestamp) in *. set (u := userId_of user_id) in *.
  assert (Hname : ts +:+ "_" +:+ u +:+ "_" +:+ uuid +:+ ext
                  = (ts +:+ "_" +:+ u +:+ "_" +:+ uuid) +:+ ext)
    by now rewrite !string_app_assoc.
  rewrite Hname in *.
  destruct (stem_before_extension _ ext Hns) as [p Hp]; [|exact He|].
  { rewrite !lacks_app. simpl. now rewrite andb_false_r. }
  split; [|split].
  - apply matches_lookup_spec. right. exists (ts +:+ "_" +:+ u), p.
    rewrite Hp. now rewrite !string_app_assoc.
  - apply matches_lookup_spec. right. exists ts, ("_" +:+ uuid +:+ p).
    rewrite Hp. now rewrite !string_app_assoc.
  - apply matches_process_spec. right.
    apply startsWith_spec in He as [r Hr]. exists (ts +:+ "_" +:+ u), r.
    rewrite Hr. now rewrite !string_app_assoc.
Qed.

Lemma generated_name_resolves_witness :
  matches_lookup "anonymous"
    (upload_filename 1700000000000 None "1b9d6bcd" "IMG_0042.jpg") = true.
Proof.
  apply (proj1 (proj2 (generated_name_resolves 1700000000000 None "1b9d6bcd"
                         "IMG_0042.jpg" eq_refl ltac:(discriminate)))).
Defined.

End FilenameFacts.

(** ** Extraction: when normalisation goes through *)

Module NormalizeFacts.
Import Js JsString ReceiptProcessor ReceiptProcessorFacts Spec Samples.

Section WithToday.
Variable today : string.

Lemma normalizeExpense_nullish pm pd expense :
  nullish expense = true -> normalizeExpense today pm pd expense = None.
Proof. now destruct expense. Qed.

Lemma normalizeExpense_some pm pd expense r :
  normalizeExpense today pm pd expense = Some r -> nullish expense = false.
Proof.
  destruct (nullish expense) eqn:E; [|reflexivity].
  now rewrite (normalizeExpense_nullish pm pd expense E).
Qed.

(** Normalisation returns a result exactly when the parsed data is not
    [null], its [expenses] is an array or falsy, and no element of the
    array is [null]; otherwise it throws and nothing is returned. A
    result has one expense per element, in particular none when
    [expenses] is missing, and carries the raw reply. *)
Theorem normalize_succeeds_iff content parsedData :
  ((exists result, normalize today content parsedData = Some result) <->
     nullish parsedData = false
     /\ exists items,
          own parsedData "expenses" ||| JArr [] = JArr items
          /\ Forall (fun e => nullish e = false) items)
  /\ (forall result,
        normalize today content parsedData = Some result ->
        rawResponse result = content
        /\ (forall items,
              own parsedData "expenses" ||| JArr [] = JArr items ->
              length (expenses result) = length items)
        /\ (truthy (own parsedData "expenses") = false -> expenses result = [])).
Proof.
  assert (Hinv : forall result,
             normalize today content parsedData = Some result ->
             nullish parsedData = false
             /\ exists items,
                  own parsedData "expenses" ||| JArr [] = JArr items
                  /\ Forall (fun e => nullish e = false) items
                  /\ length (expenses result) = length items
                  /\ rawResponse result = content).
  { intros result Hn.
    destruct (nullish parsedData) eqn:Hpd; [now destruct parsedData|].
    split; [reflexivity|]. unfold normalize in Hn.
    rewrite !(get_prop_own parsedData _ Hpd) in Hn. simpl in Hn.
    unfold map_expenses in Hn.
    destruct (own parsedData "expenses" ||| JArr []) as [| | | | |items|];
      try discriminate.
    destruct (mapM _ items) as [es|] eqn:Hes; [|discriminate].
    simpl in Hn. injection Hn as <-. simpl.
    exists items. apply mapM_Some in Hes. repeat split.
    - clear -Hes. induction Hes as [|e r items es He _ IH]; constructor.
      + exact (normalizeExpense_some _ _ _ _ He).
      + exact IH.
    - symmetry. exact (Forall2_length _ _ _ Hes). }
  split; [split|].
  - intros [result Hn]. destruct (Hinv result Hn) as (Hpd & items & Hi & Hall & _).
    split; [exact Hpd|]. now exists items.
  - intros (Hpd & items & Hi & Hall).
    destruct (normalize_total today content parsedData items Hpd Hi Hall)
      as (result & Hres & _).
    now exists result.
  - intros result Hn.
    destruct (Hinv result Hn) as (_ & items & Hi & _ & Hlen & Hraw).
    split; [exact Hraw|]. split.
    + intros items' Hi'. rewrite Hi in Hi'. injection Hi' as <-. exact Hlen.
    + intros Hfalsy. unfold js_or in Hi. rewrite Hfalsy in Hi.
      injection Hi as <-. now destruct (expenses result).
Qed.
End WithToday.

(** A [null] among the expenses makes the whole extraction fail, also when
    the other expenses are fine. *)
Example null_expense_fails_whole_call :
  processContent Json.JSON_parse "2024-06-01"
    ("{" +:+ quoted "expenses" +:+ ":[{" +:+ quoted "amount" +:+ ":5},null]}")
  = inl NormalizeTypeError.
Proof. vm_compute. reflexivity. Qed.

End NormalizeFacts.

(** ** The prompt *)

Module PromptFacts.
Import JsString JsStringFacts ReceiptHandlers ReceiptPrompt.

Lemma join_lines_cons line rest :
  exists tail, join_lines (line :: rest) = line +:+ tail
               /\ (rest <> [] -> tail = nl +:+ join_lines rest).
Proof.
  destruct rest as [|r rest].
  - exists EmptyString. simpl. now rewrite string_app_nil_r.
  - now exists (nl +:+ join_lines (r :: rest)).
Qed.

Lemma join_lines_holds line lines :
  In line lines -> exists before after, join_lines lines = before +:+ line +:+ after.
Proof.
  induction lines as [|l lines IH]; [easy|].
  intros [->|Hin].
  - destruct (join_lines_cons line lines) as (tail & -> & _).
    now exists EmptyString, tail.
  - destruct (IH Hin) as (before & after & Heq).
    destruct lines as [|l' lines]; [easy|].
    exists (l +:+ nl +:+ before), after.
    change (join_lines (l :: l' :: lines)) with (l +:+ nl +:+ join_lines (l' :: lines)).
    rewrite Heq. now rewrite !string_app_assoc.
Qed.

Lemma includes_app_middle a b c x :
  includes b x = true -> includes (a +:+ b +:+ c) x = true.
Proof.
  rewrite !includes_spec. intros (l & r & ->).
  exists (a +:+ l), (r +:+ c). now rewrite !string_app_assoc.
Qed.

Lemma includes_part a x b : includes (a +:+ x +:+ b) x = true.
Proof. apply includes_spec. now exists a, b. Qed.

(** Every category handed to [processReceipt] is put before the model:
    its line [- name (id: id)] occurs in the prompt, and with it the name
    and the id. *)
Theorem prompt_offers_every_category categories cat :
  In cat categories ->
  includes (prompt categories) (category_line cat) = true
  /\ includes (prompt categories) (cat_name cat) = true
  /\ includes (prompt categories) (cat_id cat) = true.
Proof.
  intros Hin.
  assert (Hline : includes (categoryList categories) (category_line cat) = true).
  { apply includes_spec. apply join_lines_holds. now apply List.in_map. }
  unfold prompt. repeat split; apply includes_app_middle.
  - exact Hline.
  - apply includes_spec in Hline as (l & r & ->). unfold category_line.
    apply includes_spec. exists (l +:+ "- "), (" (id: " +:+ cat_id cat +:+ ")" +:+ r).
    now rewrite !string_app_assoc.
  - apply includes_spec in Hline as (l & r & ->). unfold category_line.
    apply includes_spec.
    exists (l +:+ "- " +:+ cat_name cat +:+ " (id: "), (")" +:+ r).
    now rewrite !string_app_assoc.
Qed.

Lemma prompt_offers_every_category_witness :
  includes
    (prompt [ {| cat_id := "c1"; cat_name := "Groceries"; is_income := false |};
              {| cat_id := "c2"; cat_name := "Household"; is_income := false |} ])
    "- Household (id: c2)" = true.
Proof.
  apply (prompt_offers_every_category
           [ {| cat_id := "c1"; cat_name := "Groceries"; is_income := false |};
             {| cat_id := "c2"; cat_name := "Household"; is_income := false |} ]
           {| cat_id := "c2"; cat_name := "Household"; is_income := false |}).
  right. left. reflexivity.
Defined.

End PromptFacts.

(** ** The client's receipt API *)

Module ReceiptApiFacts.
Import Js JsString JsStringFacts Spec ReceiptApi ReceiptReviewFacts.

Section WithEngine.
Variable js_toString : JsValue -> string.
Variable type_error_message : string.
Hypothesis js_toString_string : forall s, js_toString (JStr s) = s.

#[local] Abbreviation api_call := (api_call js_toString type_error_message).

Lemma api_call_ok failed_to failed outcome :
  (exists data, api_call failed_to failed outcome = inr data) <-> envelope_ok outcome.
Proof.
  unfold envelope_ok, ReceiptApi.api_call. split.
  - intros [data H].
    destruct outcome as [[m|]|[|] statusText [err|result]]; try discriminate.
    destruct (get_prop result "status") as [status|] eqn:Hs; [|discriminate].
    destruct (strict_eq_string status "ok") eqn:E; [|discriminate].
    apply strict_eq_string_spec in E as ->. now exists statusText, result.
  - intros (statusText & result & -> & Hs). rewrite Hs. simpl. eauto.
Qed.

Lemma api_call_prefix failed_to failed outcome message :
  api_call failed_to failed outcome = inl message ->
  startsWith message failed_to = true.
Proof.
  unfold ReceiptApi.api_call. intros H.
  destruct outcome as [[m|]|[|] statusText [err|result]];
    try (injection H as <-; apply startsWith_app).
  destruct (get_prop result "status") as [status|];
    [destruct (strict_eq_string status "ok"); [discriminate|]|];
    injection H as <-; apply startsWith_app.
Qed.

Lemma api_call_surfaces failed_to failed statusText body m :
  get_prop body "message" = Some (JStr m) -> m <> EmptyString ->
  api_call failed_to failed (FetchResponds false statusText (inr body))
  = inl (failed_to +:+ m).
Proof.
  intros Hm Hne. unfold ReceiptApi.api_call. rewrite Hm.
  simpl. apply String.eqb_neq in Hne. now rewrite Hne, js_toString_string.
Qed.

(** The three calls treat the response envelope alike: each resolves
    exactly when the transport status is ok and the body's [status] is
    ['ok']; in every other case it rejects with a message that starts
    with its own 'Failed to ... receipt: ', and when a failed response
    carries a message, that message follows the prefix. *)
Theorem api_envelope_contract outcome :
  ((exists data, uploadReceipt js_toString type_error_message outcome = inr data)
   <-> envelope_ok outcome)
  /\ ((exists data, processReceipt js_toString type_error_message outcome = inr data)
      <-> envelope_ok outcome)
  /\ (deleteReceipt js_toString type_error_message outcome = inr tt
      <-> envelope_ok outcome)
  /\ (forall message,
        (uploadReceipt js_toString type_error_message outcome = inl message ->
         startsWith message "Failed to upload receipt: " = true)
        /\ (processReceipt js_toString type_error_message outcome = inl message ->
            startsWith message "Failed to process receipt: " = true)
        /\ (deleteReceipt js_toString type_error_message outcome = inl message ->
            startsWith message "Failed to delete receipt: " = true))
  /\ (forall statusText body m,
        outcome = FetchResponds false statusText (inr body) ->
        get_prop body "message" = Some (JStr m) -> m <> EmptyString ->
        uploadReceipt js_toString type_error_message outcome
        = inl ("Failed to upload receipt: " +:+ m)
        /\ processReceipt js_toString type_error_message outcome
           = inl ("Failed to process receipt: " +:+ m)
        /\ deleteReceipt js_toString type_error_message outcome
           = inl ("Failed to delete receipt: " +:+ m)).
Proof.
  unfold uploadReceipt, processReceipt, deleteReceipt.
  split; [apply api_call_ok|]. split; [apply api_call_ok|]. split; [|split].
  - rewrite <- (api_call_ok "Failed to delete receipt: " "Delete failed").
    destruct (ReceiptApi.api_call _ _ _ _ _) as [m|d]; split;
      try discriminate; eauto.
    intros [data H]. discriminate.
  - intros message. repeat split; try apply api_call_prefix.
    destruct (ReceiptApi.api_call _ _ _ _ _) as [m|d] eqn:E; [|discriminate].
    intros [= <-]. exact (api_call_prefix _ _ _ _ E).
  - intros statusText body m -> Hm Hne.
    now rewrite !(api_call_surfaces _ _ statusText body m Hm Hne).
Qed.
End WithEngine.

Lemma api_envelope_contract_witness :
  deleteReceipt toString_of_strings "Cannot read properties of null" not_found_reply
  = inl ("Failed to delete receipt: " +:+ "Receipt file not found: abc").
Proof.
  refine (proj2 (proj2 (proj2 (proj2 (proj2 (proj2
    (api_envelope_contract toString_of_strings "Cannot read properties of null"
       (fun s => eq_refl) not_found_reply))))
    "Not Found" _ "Receipt file not found: abc" eq_refl eq_refl _))).
  discriminate.
Defined.

End ReceiptApiFacts.
